(** * ENIMDA: entropy-based image border detection

    A shallow embedding of [enimda.py]: the entropy estimator [__entropy],
    the random index selector [__randoms], the class [ENIMDA] with its
    constructor, the per-frame border search [__scan_frame] and the driver
    [scan].

    Conventions of the embedding.
    - Python [int] is [Z].  Python [float] is idealised: values that are only
      multiplied and rounded ([indent], [stripes], the resize multiplier) are
      rationals [Q]; entropies and everything compared with them
      ([threshold], [delta], [diff]) are real numbers [R].
    - A raised exception is an [outcome] constructor; [Diverge] marks an
      exhausted iteration budget of a [while True] loop and is not a Python
      exception.
    - A Python [set] of integers is a strictly increasing list.  Over the
      reals the order in which a set is iterated does not show in a result: a
      sum of reals does not depend on the order of its terms, and the entropy
      of a region only on how often each value occurs in it
      ([shannon_Permutation]).
    - Names the file never binds.  [__scan_frame] calls [_entropy] and
      [_randoms] and uses numpy as [np]; none of the three is defined or
      imported.  They are taken as the module's [__entropy], a [__randoms]
      that also thins by [paginate], and numpy's array operations.  [scan]
      reads the frames from [self.__converted], which nothing in the file
      assigns: the frames are an argument.
    - Private names.  Inside the body of [class ENIMDA] an identifier with
      two leading underscores is rewritten to [_ENIMDA__name] ([mangle]).
      The attributes [__multiplier] and [__frames] are rewritten where they
      are bound and where they are read, and meet.  The call [__randoms(...)]
      in [__init__] is rewritten too, to a global that the module does not
      bind: the constructor raises [NameError] there ([init]). *)

From Stdlib Require Import String.
From Stdlib Require Import ZArith List Bool Lia Permutation Sorted.
From Stdlib Require Import QArith Qround.
From Stdlib Require Import Reals Lra.
Import ListNotations.

Local Open Scope Z_scope.

(** ** Outcomes of Python computations *)

Inductive exn : Type :=
| ZeroDivisionError
| ValueError
| KeyError
| UnboundLocalError
| NameError.

Inductive outcome (A : Type) : Type :=
| Ok (a : A)
| Raise (e : exn)
| Diverge.

Arguments Ok {A} a.
Arguments Raise {A} e.
Arguments Diverge {A}.

Definition bind {A B : Type} (m : outcome A) (k : A -> outcome B) : outcome B :=
  match m with
  | Ok a => k a
  | Raise e => Raise e
  | Diverge => Diverge
  end.

Notation "x <- m ;; k" := (bind m (fun x => k))
  (at level 61, m at next level, right associativity).
Notation "' p <- m ;; k" := (bind m (fun p => k))
  (at level 61, p pattern, m at next level, right associativity).

(** ** Python built-ins *)

Definition len {A : Type} (l : list A) : Z := Z.of_nat (length l).

(** [range(a, b)] *)
Definition py_range (a b : Z) : list Z :=
  map (fun i => a + Z.of_nat i) (seq 0 (Z.to_nat (b - a))).

(** A slice bound [i] against a sequence of length [n]: negative bounds count
    from the end, and every bound is clamped to [0, n]. *)
Definition slice_bound (n i : Z) : Z :=
  if i <? 0 then Z.max (i + n) 0 else Z.min i n.

(** [l[a:b]] *)
Definition py_slice {A : Type} (l : list A) (a b : Z) : list A :=
  let lo := slice_bound (len l) a in
  let hi := slice_bound (len l) b in
  firstn (Z.to_nat (hi - lo)) (skipn (Z.to_nat lo) l).

(** [round(q)]: to the nearest integer, ties to the even one. *)
Definition py_round (q : Q) : Z :=
  let f := Qfloor q in
  match Qcompare (q - inject_Z f) (1 # 2) with
  | Lt => f
  | Gt => f + 1
  | Eq => if Z.even f then f else f + 1
  end.

(** Adding an element to a set (a strictly increasing list). *)
Fixpoint set_add (x : Z) (s : list Z) : list Z :=
  match s with
  | [] => [x]
  | y :: s' =>
      if x <? y then x :: s
      else if x =? y then s
      else y :: set_add x s'
  end.

(** [set(l)] *)
Definition py_set (l : list Z) : list Z :=
  fold_left (fun s x => set_add x s) l [].

(** [x in s] *)
Definition set_mem (x : Z) (s : list Z) : bool := existsb (Z.eqb x) s.

(** ** [Counter] and dictionaries *)

(** A dictionary from values to counts, in insertion order. *)
Definition dict : Type := list (Z * Z).

(** [d[v] += 1], inserting [v] with count 1 when absent. *)
Fixpoint counter_incr (d : dict) (v : Z) : dict :=
  match d with
  | [] => [(v, 1)]
  | (k, c) :: d' =>
      if k =? v then (k, c + 1) :: d' else (k, c) :: counter_incr d' v
  end.

(** [dict(Counter(signal))] *)
Definition Counter (signal : list Z) : dict := fold_left counter_incr signal [].

(** [d[v]] *)
Fixpoint dict_get (d : dict) (v : Z) : outcome Z :=
  match d with
  | [] => Raise KeyError
  | (k, c) :: d' => if k =? v then Ok c else dict_get d' v
  end.

(** ** Arithmetic on floats, idealised as reals *)

(** [a / b] on integers (true division). *)
Definition true_div (a b : Z) : outcome R :=
  if b =? 0 then Raise ZeroDivisionError else Ok (IZR a / IZR b)%R.

(** [a / b] on floats. *)
Definition float_div (a b : R) : outcome R :=
  if Req_dec_T b 0 then Raise ZeroDivisionError else Ok (a / b)%R.

(** [math.log2] *)
Definition log2 (x : R) : outcome R :=
  if Rle_dec x 0 then Raise ValueError else Ok (ln x / ln 2)%R.

(** ** The entropy estimator: [__entropy] *)

(** [sum(prob * log2(1.0 / prob) for prob in probs)], where [probs] is the
    generator [(counts[value] / len(signal) for value in set(signal))]: both
    generators are lazy, so each value's probability and term are computed
    when [sum] asks for them, one value after the other. *)
Definition entropy (signal : list Z) : outcome R :=
  let counts := Counter signal in
  fold_left
    (fun acc value =>
       total <- acc ;;
       count <- dict_get counts value ;;
       prob <- true_div count (len signal) ;;
       inv <- float_div 1 prob ;;
       bits <- log2 inv ;;
       Ok (total + prob * bits)%R)
    (py_set signal) (Ok 0%R).

(** The specification's words: [p(v) = count(v) / length(signal)] and
    [entropy = sum over distinct v of p(v) * log2(1 / p(v))]. *)
Definition probability (signal : list Z) (v : Z) : R :=
  (INR (count_occ Z.eq_dec signal v) / INR (length signal))%R.

Definition shannon_term (signal : list Z) (v : Z) : R :=
  (probability signal v * (ln (1 / probability signal v) / ln 2))%R.

Definition Rsum (l : list R) : R := fold_right Rplus 0%R l.

Definition shannon_entropy (signal : list Z) : R :=
  Rsum (map (shannon_term signal) (nodup Z.eq_dec signal)).

(** ** The randomness source

    [random.shuffle] belongs to the Python library.  A generator state of type
    [rng] is threaded through every call that draws from it; [shuffle] returns
    the shuffled list and the next state.  [fair_shuffle] is the library's
    contract: the result is a rearrangement of the argument. *)

Class RandomSource (rng : Type) : Type :=
  { shuffle : rng -> list Z -> list Z * rng }.

Definition fair_shuffle (rng : Type) `{RandomSource rng} : Prop :=
  forall (g : rng) (l : list Z), Permutation l (fst (shuffle g l)).

(** A concrete source: the state is a counter and a shuffle rotates the list
    by the counter. *)
Definition rotate_shuffle (g : nat) (l : list Z) : list Z * nat :=
  let k := Nat.modulo g (Nat.max 1 (length l)) in
  (skipn k l ++ firstn k l, S g).

#[export] Instance rotating_source : RandomSource nat :=
  { shuffle := rotate_shuffle }.

(** ** The random subset selector: [__randoms] *)

Definition randoms {rng : Type} `{RandomSource rng}
    (count : Z) (limit : option Z) (g : rng) : list Z * rng :=
  let randoms := py_range 0 count in
  match limit with
  | None => (py_set randoms, g)
  | Some limit =>
      let (randoms, g) := shuffle g randoms in
      (py_set (py_slice randoms 0 limit), g)
  end.

(** Modelled from the spec: the selector that [__scan_frame] calls as
    [_randoms(count=w, paginate=paginate, limit=max_stripes)] is missing from
    the source, whose [__randoms] has no [paginate] parameter.  The spec makes
    it two passes: first stride the index range by [paginate], then randomly
    subsample up to [limit] as [__randoms] does. *)
Definition randoms_paginate {rng : Type} `{RandomSource rng}
    (count paginate : Z) (limit : option Z) (g : rng) : list Z * rng :=
  let randoms := filter (fun i => i mod paginate =? 0) (py_range 0 count) in
  match limit with
  | None => (py_set randoms, g)
  | Some limit =>
      let (randoms, g) := shuffle g randoms in
      (py_set (py_slice randoms 0 limit), g)
  end.

(** ** numpy arrays

    A two-dimensional array is the list of its rows. *)

Definition array : Type := list (list Z).

(** [a.shape] *)
Definition shape (a : array) : Z * Z :=
  (len a, match a with [] => 0 | row :: _ => len row end).

(** Column [j] of [a], from the top. *)
Definition column (a : array) (j : nat) : list Z :=
  map (fun row => nth j row 0) a.

Definition transpose (a : array) : array :=
  map (column a) (seq 0 (Z.to_nat (snd (shape a)))).

(** [np.rot90(a, k=k)]: [k] counter-clockwise quarter turns. *)
Fixpoint rot90 (k : nat) (a : array) : array :=
  match k with
  | O => a
  | S k' => rev (transpose (rot90 k' a))
  end.

(** [a[r0:r1, c0:c1]] *)
Definition slice2 (a : array) (r0 r1 c0 c1 : Z) : array :=
  map (fun row => py_slice row c0 c1) (py_slice a r0 r1).

(** [a.flatten()] *)
Definition flatten (a : array) : list Z := concat a.

(** Row-wise concatenation of two arrays of equal height. *)
Fixpoint hcat (a b : array) : array :=
  match a, b with
  | x :: a', y :: b' => (x ++ y) :: hcat a' b'
  | _, _ => []
  end.

(** [np.hstack(arrs)]: an empty sequence of arrays is rejected. *)
Definition hstack (arrs : list array) : outcome array :=
  match arrs with
  | [] => Raise ValueError
  | a :: rest => Ok (fold_left hcat rest a)
  end.

(** ** The border search: [__scan_frame] *)

Record config : Type :=
  { threshold : R;
    indent : Q;
    stripes : Q;
    max_stripes : option Z;
    fast : bool }.

(** [round(1.0 / stripes) if 0.0 < stripes < 1.0 else 1] *)
Definition paginate_of (stripes : Q) : Z :=
  if Qlt_le_dec 0 stripes
  then if Qlt_le_dec stripes 1 then py_round (1 / stripes) else 1
  else 1.

(** [round(indent * h)] *)
Definition reach (cfg : config) (h : Z) : Z :=
  py_round (indent cfg * inject_Z h).

(** [rot[a:b, 0:w].flatten()] *)
Definition region (rot : array) (w a b : Z) : list Z :=
  flatten (slice2 rot a b 0 w).

Definition Rgtb (x y : R) : bool := if Rgt_dec x y then true else false.
Definition Rltb (x y : R) : bool := if Rlt_dec x y then true else false.
Definition Rneqb (x y : R) : bool := if Req_dec_T x y then false else true.

(** The loop [for start in range(border + 1, round(indent * h) + 1)] with its
    [break]; [starts] is what is left of the range.  The loop variable [start]
    belongs to the whole method: an empty range leaves it as it was, unbound
    ([None]) when nothing bound it before. *)
Fixpoint find_start (rot : array) (w border : Z) (starts : list Z)
    (start : option Z) : outcome (option Z) :=
  match starts with
  | [] => Ok start
  | s :: starts' =>
      e <- entropy (region rot w border s) ;;
      if Rgtb e 0 then Ok (Some s)
      else find_start rot w border starts' (Some s)
  end.

(** Reading a local variable. *)
Definition read_local (v : option Z) : outcome Z :=
  match v with
  | Some z => Ok z
  | None => Raise UnboundLocalError
  end.

(** The loop [for center in reversed(range(start, round(indent * h) + 1))];
    [centers] is what is left of the reversed range. *)
Fixpoint find_subborder (rot : array) (w border : Z) (threshold : R)
    (centers : list Z) (subborder : Z) (delta : R) : outcome (Z * R) :=
  match centers with
  | [] => Ok (subborder, delta)
  | center :: centers' =>
      upper <- entropy (region rot w border center) ;;
      lower <- entropy (region rot w center (2 * center - border)) ;;
      let diff := if Rneqb lower 0 then (upper / lower)%R else delta in
      if Rltb diff delta && Rltb diff threshold
      then find_subborder rot w border threshold centers' center diff
      else find_subborder rot w border threshold centers' subborder delta
  end.

(** The [while True] loop of one side, with an iteration budget [fuel].
    The result is the side's border and the value [start] is left with. *)
Fixpoint detect (fuel : nat) (cfg : config) (rot : array) (h w border : Z)
    (start : option Z) : outcome (Z * option Z) :=
  match fuel with
  | O => Diverge
  | S fuel' =>
      start <- find_start rot w border
                 (py_range (border + 1) (reach cfg h + 1)) start ;;
      s <- read_local start ;;
      ' (subborder, _) <- find_subborder rot w border (threshold cfg)
                            (rev (py_range s (reach cfg h + 1)))
                            0 (threshold cfg) ;;
      if (subborder =? 0) || (border =? subborder) then Ok (border, start)
      else if fast cfg then Ok (subborder, start)
      else detect fuel' cfg rot h w subborder start
  end.

(** The reduced view of one side: rotate, pick columns, stack them. *)
Definition reduced_view {rng : Type} `{RandomSource rng}
    (cfg : config) (arr : array) (side : nat) (g : rng)
    : outcome array * rng :=
  let rot := rot90 side arr in
  let (h, w) := shape rot in
  let (cols, g) := randoms_paginate w (paginate_of (stripes cfg))
                     (max_stripes cfg) g in
  (hstack (map (fun r => slice2 rot 0 h r (r + 1)) cols), g).

(** One pass of [for side in range(4)]. *)
Definition scan_side {rng : Type} `{RandomSource rng}
    (fuel : nat) (cfg : config) (arr : array) (side : nat)
    (start : option Z) (g : rng) : outcome (Z * option Z) * rng :=
  let (view, g) := reduced_view cfg arr side g in
  (rot <- view ;;
   let (h, w) := shape rot in
   detect fuel cfg rot h w 0 start, g).

Fixpoint scan_sides {rng : Type} `{RandomSource rng}
    (fuel : nat) (cfg : config) (arr : array) (sides : list nat)
    (start : option Z) (g : rng) : outcome (list Z) * rng :=
  match sides with
  | [] => (Ok [], g)
  | side :: sides' =>
      match scan_side fuel cfg arr side start g with
      | (Ok (border, start), g) =>
          let (rest, g) := scan_sides fuel cfg arr sides' start g in
          (borders <- rest ;; Ok (border :: borders), g)
      | (Raise e, g) => (Raise e, g)
      | (Diverge, g) => (Diverge, g)
      end
  end.

(** [__scan_frame]: the borders of the four sides of one frame. *)
Definition scan_frame {rng : Type} `{RandomSource rng}
    (fuel : nat) (cfg : config) (arr : array) (g : rng)
    : outcome (list Z) * rng :=
  scan_sides fuel cfg arr [0; 1; 2; 3]%nat None g.

(** [scan]: the borders of every loaded frame, in order. *)
Fixpoint scan {rng : Type} `{RandomSource rng}
    (fuel : nat) (cfg : config) (frames : list array) (g : rng)
    : outcome (list (list Z)) * rng :=
  match frames with
  | [] => (Ok [], g)
  | arr :: frames' =>
      match scan_frame fuel cfg arr g with
      | (Ok borders, g) =>
          let (rest, g) := scan fuel cfg frames' g in
          (all <- rest ;; Ok (borders :: all), g)
      | (Raise e, g) => (Raise e, g)
      | (Diverge, g) => (Diverge, g)
      end
  end.

(** ** The class [ENIMDA]

    [__multiplier = 1.0] and [__frames = []] are attributes of the class: the
    class body builds one list object and binds the class attribute to it.
    The store keeps list objects by location; an instance carries its own
    attribute dictionary, and reading an attribute looks there first and in
    the class next. *)

(** Pillow belongs to the Python library: [image.resize((w, h))] and
    [image.convert('L')] of the current frame.  Resizing can fail: Pillow
    rejects a size with a zero in it. *)
Class Pillow : Type :=
  { resize : array -> Z -> Z -> outcome array;
    convert_L : array -> array }.

(** An opened image: its size and its frames, reached by [image.seek]. *)
Record pil_image : Type :=
  { width : Z;
    height : Z;
    pil_frames : list array }.

Definition loc : Type := nat.

Record world : Type :=
  { class_multiplier : Q;
    class_frames : loc;
    heap : list (list array) }.

(** An instance's own dictionary. *)
Record instance : Type :=
  { own_multiplier : option Q;
    own_frames : option loc }.

(** The store once the class statement has run. *)
Definition class_defined : world :=
  {| class_multiplier := 1; class_frames := 0%nat; heap := [[]] |}.

(** A new object, before [__init__] runs. *)
Definition new_instance : instance :=
  {| own_multiplier := None; own_frames := None |}.

(** [self.__multiplier] *)
Definition getattr_multiplier (w : world) (self : instance) : Q :=
  match own_multiplier self with
  | Some m => m
  | None => class_multiplier w
  end.

(** [self.__frames]: the list object the attribute is bound to. *)
Definition getattr_frames (w : world) (self : instance) : loc :=
  match own_frames self with
  | Some l => l
  | None => class_frames w
  end.

(** [self.__multiplier = m] *)
Definition setattr_multiplier (self : instance) (m : Q) : instance :=
  {| own_multiplier := Some m; own_frames := own_frames self |}.

Fixpoint update {A : Type} (l : list A) (i : nat) (x : A) : list A :=
  match l, i with
  | [], _ => []
  | _ :: l', O => x :: l'
  | y :: l', S i' => y :: update l' i' x
  end.

(** [lst.append(x)] on the list object at [l]: the object is changed in
    place. *)
Definition list_append (w : world) (l : loc) (x : array) : world :=
  {| class_multiplier := class_multiplier w;
     class_frames := class_frames w;
     heap := update (heap w) l (nth l (heap w) [] ++ [x]) |}.

(** The frames an instance observes: the content of [self.__frames]. *)
Definition frames_of (w : world) (self : instance) : list array :=
  nth (getattr_frames w self) (heap w) [].

(** [a / b] on integers, for the rational-valued floats. *)
Definition ratio (a b : Z) : outcome Q :=
  if b =? 0 then Raise ZeroDivisionError else Ok (inject_Z a / inject_Z b)%Q.

(** The loop that counts the frames: [frame_count += 1], then
    [image.seek(frame_count)], which raises [EOFError] past the last frame. *)
Fixpoint count_frames (fuel : nat) (image : pil_image) (frame_count : Z)
    : outcome Z :=
  match fuel with
  | O => Diverge
  | S fuel' =>
      let frame_count := frame_count + 1 in
      if frame_count <? len (pil_frames image)
      then count_frames fuel' image frame_count
      else Ok frame_count
  end.

(** The block under [if size is not None]: the working size and the
    instance's multiplier.  [width] and [height] are locals that only this
    block binds. *)
Definition working_size (image : pil_image) (size : option Z)
    (self : instance) : outcome (option Z * option Z * instance) :=
  match size with
  | None => Ok (None, None, self)
  | Some size =>
      if (width image >? size) || (height image >? size) then
        if width image >? height image then
          q <- ratio (size * height image) (width image) ;;
          m <- ratio (width image) size ;;
          Ok (Some size, Some (py_round q), setattr_multiplier self m)
        else if width image <? height image then
          q <- ratio (size * width image) (height image) ;;
          m <- ratio (height image) size ;;
          Ok (Some (py_round q), Some size, setattr_multiplier self m)
        else
          m <- ratio (width image) size ;;
          Ok (Some size, Some size, setattr_multiplier self m)
      else Ok (None, None, self)
  end.

(** The loop [for frame in range(frame_count)]; [todo] is what is left of the
    range.  The result carries the store as the loop leaves it, also when it
    raises: what was appended before stays appended. *)
Fixpoint load_frames `{Pillow} (w : world) (self : instance)
    (image : pil_image) (frame_set : list Z) (wd ht : option Z)
    (todo : list Z) : outcome unit * world :=
  match todo with
  | [] => (Ok tt, w)
  | frame :: todo' =>
      match nth_error (pil_frames image) (Z.to_nat frame) with
      | None => (Ok tt, w)
      | Some current =>
          if negb (set_mem frame frame_set)
          then load_frames w self image frame_set wd ht todo'
          else if negb (Qeq_bool (getattr_multiplier w self) 1) then
            match (width <- read_local wd ;;
                   height <- read_local ht ;;
                   resize current width height) with
            | Ok resized =>
                load_frames
                  (list_append w (getattr_frames w self) (convert_L resized))
                  self image frame_set wd ht todo'
            | Raise e => (Raise e, w)
            | Diverge => (Diverge, w)
            end
          else
            load_frames
              (list_append w (getattr_frames w self) (convert_L current))
              self image frame_set wd ht todo'
      end
  end.

(** *** Private names and globals *)

(** An identifier ends with [suffix]. *)
Definition ends_with (suffix s : string) : bool :=
  String.eqb
    (substring (String.length s - String.length suffix)%nat
       (String.length suffix) s)
    suffix.

(** What the compiler makes of the identifier [name] in the body of the
    class [class]: a name with two leading underscores that does not end
    with two is prefixed with an underscore and the name of the class. *)
Definition mangle (class name : string) : string :=
  if prefix "__" name && negb (ends_with "__" name)
  then String.append "_" (String.append class name)
  else name.

(** An index selector: called with [count] and [limit], it draws from the
    randomness source. *)
Definition selector (rng : Type) : Type :=
  Z -> option Z -> rng -> list Z * rng.

(** Loading the global [name] to call it as an index selector.  The module
    binds its selector under [__randoms], and neither the module nor the
    built-ins bind a name of the form [_ENIMDA__...]. *)
Definition load_global {rng : Type} `{RandomSource rng} (name : string)
    : outcome (selector rng) :=
  if String.eqb name "__randoms" then Ok randoms else Raise NameError.

(** [ENIMDA(fp=..., size=..., frames=..., columns=...)]: a new object and
    [__init__] on it, with the store and the randomness source as the call
    leaves them.  [rows_count = round(rows * image.height)] is computed and
    never used; [column_set] is never used either.  Both calls of
    [__randoms] stand in the body of the class, where the name is private to
    the class. *)
Definition init {rng : Type} `{RandomSource rng} `{Pillow}
    (w : world) (image : pil_image) (size frames columns : option Z)
    (g : rng) : outcome instance * world * rng :=
  let self := new_instance in
  match load_global (mangle "ENIMDA" "__randoms") with
  | Ok select_columns =>
      let (column_set, g) := select_columns (width image) columns g in
      match count_frames (S (length (pil_frames image))) image 0 with
      | Ok frame_count =>
          match load_global (mangle "ENIMDA" "__randoms") with
          | Ok select_frames =>
              let (frame_set, g) := select_frames frame_count frames g in
              match working_size image size self with
              | Ok (wd, ht, self) =>
                  let (loaded, w) :=
                    load_frames w self image frame_set wd ht
                      (py_range 0 frame_count) in
                  (match loaded with
                   | Ok _ => Ok self
                   | Raise e => Raise e
                   | Diverge => Diverge
                   end, w, g)
              | Raise e => (Raise e, w, g)
              | Diverge => (Diverge, w, g)
              end
          | Raise e => (Raise e, w, g)
          | Diverge => (Diverge, w, g)
          end
      | Raise e => (Raise e, w, g)
      | Diverge => (Diverge, w, g)
      end
  | Raise e => (Raise e, w, g)
  | Diverge => (Diverge, w, g)
  end.

(** ** Auxiliary notions for the proofs *)

(** [v] is a key of [d]. *)
Definition has_key (d : dict) (v : Z) : Prop := In v (map fst d).

(** The count [d] holds for [v], 0 when [v] is not a key. *)
Definition count_in (d : dict) (v : Z) : Z :=
  match dict_get d v with
  | Ok c => c
  | _ => 0
  end.

(** A signal all of whose values are the same. *)
Definition uniform (signal : list Z) : Prop :=
  forall x y, In x signal -> In y signal -> x = y.

(** What the method's variable [start] can hold: it is unbound or at least 1. *)
Definition start_ok (start : option Z) : Prop :=
  match start with
  | Some s => 1 <= s
  | None => True
  end.

(** The height of the rotated view of a side. *)
Definition side_height (arr : array) (side : nat) : Z :=
  fst (shape (rot90 side arr)).

(** Every pixel of an array satisfies [P]. *)
Definition all_pixels (P : Z -> Prop) (a : array) : Prop :=
  Forall (Forall P) a.

(** The blank frame of height [h] and width [w] whose pixels are all [v]. *)
Definition blank (v : Z) (h w : nat) : array := repeat (repeat v w) h.

(** The configuration [cfg] with another threshold. *)
Definition with_threshold (cfg : config) (t : R) : config :=
  {| threshold := t;
     indent := indent cfg;
     stripes := stripes cfg;
     max_stripes := max_stripes cfg;
     fast := fast cfg |}.

(** The configuration [cfg] with another value of [stripes]. *)
Definition with_stripes (cfg : config) (s : Q) : config :=
  {| threshold := threshold cfg;
     indent := indent cfg;
     stripes := s;
     max_stripes := max_stripes cfg;
     fast := fast cfg |}.

(** ** Concrete inputs *)

(** The defaults of [scan]: [threshold=0.5, indent=0.25, stripes=1.0,
    max_stripes=None, fast=True]. *)
Definition default_config : config :=
  {| threshold := (1 / 2)%R;
     indent := 1 # 4;
     stripes := 1;
     max_stripes := None;
     fast := true |}.

(** A frame of two rows and two columns. *)
Definition tiny_frame : array := [[1; 2]; [3; 4]].

(** A frame of sixteen rows and two columns: a pixel of value 1 in rows 0
    and 7, pixels of value 0 elsewhere. *)
Definition marked_frame : array :=
  [[0; 1]; [0; 0]; [0; 0]; [0; 0]; [0; 0]; [0; 0]; [0; 0]; [0; 1];
   [0; 0]; [0; 0]; [0; 0]; [0; 0]; [0; 0]; [0; 0]; [0; 0]; [0; 0]].

(** [threshold=2.0, indent=0.25, stripes=1.0, max_stripes=None,
    fast=False] *)
Definition slow_config : config :=
  {| threshold := 2%R;
     indent := 1 # 4;
     stripes := 1;
     max_stripes := None;
     fast := false |}.

(** [threshold=-1.0], the other options at their defaults. *)
Definition negative_config : config :=
  {| threshold := (-1)%R;
     indent := 1 # 4;
     stripes := 1;
     max_stripes := None;
     fast := true |}.

(** A frame of sixteen rows and four columns: a pixel of value 1 in row 0,
    the values 1, 2, 3, 4 in row 7, pixels of value 0 elsewhere. *)
Definition wide_frame : array :=
  [[0; 0; 0; 1]; [0; 0; 0; 0]; [0; 0; 0; 0]; [0; 0; 0; 0];
   [0; 0; 0; 0]; [0; 0; 0; 0]; [0; 0; 0; 0]; [1; 2; 3; 4];
   [0; 0; 0; 0]; [0; 0; 0; 0]; [0; 0; 0; 0]; [0; 0; 0; 0];
   [0; 0; 0; 0]; [0; 0; 0; 0]; [0; 0; 0; 0]; [0; 0; 0; 0]].

(** The defaults of [scan], with [fast=False]. *)
Definition patient_config : config :=
  {| threshold := (1 / 2)%R;
     indent := 1 # 4;
     stripes := 1;
     max_stripes := None;
     fast := false |}.

(** A frame of eight rows and three columns: a pixel of value 1 in row 3 of
    the middle column, pixels of value 0 elsewhere. *)
Definition striped_frame : array :=
  [[0; 0; 0]; [0; 0; 0]; [0; 0; 0]; [0; 1; 0];
   [0; 0; 0]; [0; 0; 0]; [0; 0; 0]; [0; 0; 0]].

(** The defaults of [scan], with [max_stripes=1]. *)
Definition capped_config : config :=
  {| threshold := (1 / 2)%R;
     indent := 1 # 4;
     stripes := 1;
     max_stripes := Some 1;
     fast := true |}.

(** ** Tactics for concrete regions *)

(** A region of a concrete frame holds only the value 0; [all_equal] is the
    lemma that such a signal is uniform. *)
Ltac flat_region all_equal :=
  apply (all_equal 0); vm_compute; repeat constructor.

(** A region of a concrete frame holds the values 0 and 1; [two_values] is
    the lemma that a signal with two distinct values has positive entropy. *)
Ltac marked_region two_values :=
  apply (two_values _ 0 1);
  [ vm_compute; repeat (first [left; reflexivity | right])
  | vm_compute; repeat (first [left; reflexivity | right])
  | discriminate ].

(** * Properties *)

(** ** Python built-ins *)

Lemma len_nonneg {A : Type} (l : list A) : 0 <= len l.
Proof. unfold len; lia. Qed.

Lemma py_range_length (a b : Z) : length (py_range a b) = Z.to_nat (b - a).
Proof. unfold py_range; now rewrite length_map, length_seq. Qed.

Lemma In_py_range (a b x : Z) : In x (py_range a b) <-> a <= x < b.
Proof.
  unfold py_range; rewrite in_map_iff; split.
  - intros [i [E Hi]]; apply in_seq in Hi; lia.
  - intros Hx; exists (Z.to_nat (x - a)); split; [lia |].
    apply in_seq; lia.
Qed.

Lemma py_range_empty (a b : Z) : b <= a -> py_range a b = [].
Proof.
  intros Hba; unfold py_range.
  replace (Z.to_nat (b - a)) with 0%nat by lia; reflexivity.
Qed.

Lemma py_range_NoDup (a b : Z) : NoDup (py_range a b).
Proof.
  unfold py_range; apply Finite.Injective_map_NoDup; [| apply seq_NoDup].
  intros i j E; lia.
Qed.

Lemma In_take {A : Type} (n : nat) (l : list A) (x : A) :
  In x (firstn n l) -> In x l.
Proof.
  intros Hx; rewrite <- (firstn_skipn n l); apply in_or_app; now left.
Qed.

Lemma In_drop {A : Type} (n : nat) (l : list A) (x : A) :
  In x (skipn n l) -> In x l.
Proof.
  intros Hx; rewrite <- (firstn_skipn n l); apply in_or_app; now right.
Qed.

Lemma py_slice_incl {A : Type} (l : list A) (a b : Z) (x : A) :
  In x (py_slice l a b) -> In x l.
Proof.
  unfold py_slice; intros Hx.
  apply In_take in Hx; now apply In_drop in Hx.
Qed.

Lemma py_slice_prefix {A : Type} (l : list A) (b : Z) :
  0 <= b -> py_slice l 0 b = firstn (Z.to_nat b) l.
Proof.
  intros Hb; unfold py_slice, slice_bound; simpl.
  pose proof (len_nonneg l) as Hn.
  destruct (b <? 0) eqn:Eb; [lia |].
  replace (Z.min 0 (len l)) with 0 by lia; simpl.
  rewrite Z.sub_0_r.
  destruct (Z.le_gt_cases b (len l)) as [Hle | Hgt].
  - now rewrite Z.min_l by lia.
  - rewrite Z.min_r by lia.
    unfold len in *; rewrite !firstn_all2; [reflexivity | lia | lia].
Qed.

Lemma py_slice_NoDup {A : Type} (l : list A) (a b : Z) :
  NoDup l -> NoDup (py_slice l a b).
Proof.
  intros Hl; unfold py_slice.
  set (lo := Z.to_nat (slice_bound (len l) a)).
  set (n := Z.to_nat _).
  assert (Hs : NoDup (skipn lo l)).
  { rewrite <- (firstn_skipn lo l) in Hl.
    now apply NoDup_app_remove_l in Hl. }
  rewrite <- (firstn_skipn n (skipn lo l)) in Hs.
  now apply NoDup_app_remove_r in Hs.
Qed.

(** ** Sets *)

Lemma In_set_add (x y : Z) (s : list Z) :
  In y (set_add x s) <-> y = x \/ In y s.
Proof.
  induction s as [| z s IH]; simpl.
  - intuition.
  - destruct (x <? z) eqn:E1; simpl; [intuition |].
    destruct (x =? z) eqn:E2; simpl.
    + apply Z.eqb_eq in E2; subst z; intuition.
    + rewrite IH; intuition.
Qed.

Lemma set_add_increasing (x : Z) (s : list Z) :
  Sorted.StronglySorted Z.lt s -> Sorted.StronglySorted Z.lt (set_add x s).
Proof.
  induction 1 as [| z s Hs IH Hz]; simpl.
  - constructor; constructor.
  - destruct (x <? z) eqn:E1.
    + apply Z.ltb_lt in E1.
      constructor; [now constructor |].
      constructor; [exact E1 |].
      eapply Forall_impl; [| exact Hz]; simpl; intros; lia.
    + destruct (x =? z) eqn:E2; [now constructor |].
      apply Z.ltb_ge in E1; apply Z.eqb_neq in E2.
      constructor; [exact IH |].
      apply Forall_forall; intros y Hy.
      apply In_set_add in Hy; destruct Hy as [-> | Hy]; [lia |].
      rewrite Forall_forall in Hz; now apply Hz.
Qed.

Lemma increasing_NoDup (s : list Z) :
  Sorted.StronglySorted Z.lt s -> NoDup s.
Proof.
  induction 1 as [| z s Hs IH Hz]; constructor; [| exact IH].
  intros Hin; rewrite Forall_forall in Hz; specialize (Hz _ Hin); lia.
Qed.

Lemma py_set_fold (l s : list Z) :
  Sorted.StronglySorted Z.lt s ->
  Sorted.StronglySorted Z.lt (fold_left (fun s x => set_add x s) l s)
  /\ forall y, In y (fold_left (fun s x => set_add x s) l s) <-> In y l \/ In y s.
Proof.
  revert s; induction l as [| x l IH]; simpl; intros s Hs.
  - split; [exact Hs | intuition].
  - destruct (IH (set_add x s) (set_add_increasing x s Hs)) as [H1 H2].
    split; [exact H1 |].
    intros y; rewrite H2, In_set_add; intuition.
Qed.

Lemma In_py_set (l : list Z) (y : Z) : In y (py_set l) <-> In y l.
Proof.
  unfold py_set.
  destruct (py_set_fold l [] (Sorted.SSorted_nil _)) as [_ H].
  rewrite H; simpl; intuition.
Qed.

Lemma py_set_increasing (l : list Z) : Sorted.StronglySorted Z.lt (py_set l).
Proof. apply (py_set_fold l [] (Sorted.SSorted_nil _)). Qed.

Lemma py_set_NoDup (l : list Z) : NoDup (py_set l).
Proof. apply increasing_NoDup, py_set_increasing. Qed.

Lemma py_set_nodup (l : list Z) : Permutation (py_set l) (nodup Z.eq_dec l).
Proof.
  apply NoDup_Permutation; [apply py_set_NoDup | apply NoDup_nodup |].
  intros y; rewrite In_py_set, nodup_In; reflexivity.
Qed.

Lemma py_set_Permutation (l : list Z) : NoDup l -> Permutation (py_set l) l.
Proof.
  intros Hl; apply NoDup_Permutation; [apply py_set_NoDup | exact Hl |].
  intros y; apply In_py_set.
Qed.

Lemma py_set_length (l : list Z) : NoDup l -> length (py_set l) = length l.
Proof. intros Hl; apply Permutation_length, py_set_Permutation, Hl. Qed.

(** ** [Counter] counts occurrences *)

Lemma dict_get_key (d : dict) (v : Z) :
  has_key d v -> dict_get d v = Ok (count_in d v).
Proof.
  unfold count_in, has_key; induction d as [| [k c] d IH]; simpl.
  - intros [].
  - destruct (k =? v) eqn:E; [reflexivity |].
    apply Z.eqb_neq in E; intros [Hk | Hk]; [contradiction |].
    rewrite (IH Hk); reflexivity.
Qed.

Lemma counter_incr_key (d : dict) (x v : Z) :
  has_key (counter_incr d x) v <-> x = v \/ has_key d v.
Proof.
  unfold has_key; induction d as [| [k c] d IH]; simpl.
  - intuition.
  - destruct (k =? x) eqn:E; simpl.
    + apply Z.eqb_eq in E; subst k; intuition.
    + rewrite IH; intuition.
Qed.

Lemma counter_incr_count (d : dict) (x v : Z) :
  count_in (counter_incr d x) v
  = count_in d v + (if x =? v then 1 else 0).
Proof.
  unfold count_in; induction d as [| [k c] d IH]; simpl.
  - destruct (x =? v); reflexivity.
  - destruct (k =? x) eqn:E; simpl.
    + apply Z.eqb_eq in E; subst k.
      destruct (x =? v); [reflexivity | lia].
    + destruct (k =? v) eqn:E'; [| exact IH].
      apply Z.eqb_eq in E'; subst k.
      rewrite Z.eqb_sym, E; lia.
Qed.

Lemma count_occ_step (s : list Z) (x v : Z) :
  Z.of_nat (count_occ Z.eq_dec (x :: s) v)
  = (if x =? v then 1 else 0) + Z.of_nat (count_occ Z.eq_dec s v).
Proof.
  simpl; destruct (Z.eq_dec x v) as [E | E].
  - subst; rewrite Z.eqb_refl; lia.
  - apply Z.eqb_neq in E; rewrite E; lia.
Qed.

Lemma Counter_fold (s : list Z) (d : dict) (v : Z) :
  (has_key (fold_left counter_incr s d) v <-> In v s \/ has_key d v)
  /\ count_in (fold_left counter_incr s d) v
     = count_in d v + Z.of_nat (count_occ Z.eq_dec s v).
Proof.
  revert d; induction s as [| x s IH]; intros d.
  - simpl; split; [intuition | lia].
  - destruct (IH (counter_incr d x)) as [H1 H2].
    change (fold_left counter_incr (x :: s) d)
      with (fold_left counter_incr s (counter_incr d x)).
    split.
    + rewrite H1, counter_incr_key; simpl; intuition.
    + rewrite H2, counter_incr_count, count_occ_step; lia.
Qed.

Lemma Counter_get (signal : list Z) (v : Z) :
  In v signal ->
  dict_get (Counter signal) v = Ok (Z.of_nat (count_occ Z.eq_dec signal v)).
Proof.
  intros Hv; unfold Counter.
  destruct (Counter_fold signal [] v) as [H1 H2].
  rewrite dict_get_key by (apply H1; now left).
  rewrite H2; reflexivity.
Qed.

(** ** The entropy estimator *)

Lemma Rsum_app (l1 l2 : list R) : Rsum (l1 ++ l2) = (Rsum l1 + Rsum l2)%R.
Proof.
  unfold Rsum; induction l1 as [| x l1 IH]; simpl; [lra | rewrite IH; lra].
Qed.

Lemma Rsum_Permutation (l1 l2 : list R) :
  Permutation l1 l2 -> Rsum l1 = Rsum l2.
Proof.
  unfold Rsum; induction 1; simpl; lra.
Qed.

Lemma Rsum_nonneg (l : list R) :
  (forall x, In x l -> (0 <= x)%R) -> (0 <= Rsum l)%R.
Proof.
  unfold Rsum; induction l as [| x l IH]; simpl; intros H; [lra |].
  pose proof (H x (or_introl eq_refl)).
  assert (0 <= fold_right Rplus 0 l)%R by (apply IH; intros; apply H; now right).
  lra.
Qed.

Lemma Rsum_zero (l : list R) :
  (forall x, In x l -> x = 0%R) -> Rsum l = 0%R.
Proof.
  unfold Rsum; induction l as [| x l IH]; simpl; intros H; [reflexivity |].
  rewrite (H x (or_introl eq_refl)), IH; [lra |].
  intros; apply H; now right.
Qed.

Lemma Rsum_positive (l : list R) (x : R) :
  (forall y, In y l -> (0 <= y)%R) -> In x l -> (0 < x)%R -> (0 < Rsum l)%R.
Proof.
  intros Hl Hx Hpos.
  apply in_split in Hx; destruct Hx as [l1 [l2 ->]].
  rewrite Rsum_app; simpl.
  assert (0 <= Rsum l1)%R
    by (apply Rsum_nonneg; intros; apply Hl, in_or_app; now left).
  assert (0 <= Rsum l2)%R
    by (apply Rsum_nonneg; intros; apply Hl, in_or_app; right; now right).
  unfold Rsum in *; lra.
Qed.

Lemma ln_2_pos : (0 < ln 2)%R.
Proof. pose proof ln_lt_2; lra. Qed.

Lemma count_occ_le_length (s : list Z) (v : Z) :
  (count_occ Z.eq_dec s v <= length s)%nat.
Proof.
  induction s as [| x s IH]; simpl; [lia |].
  destruct (Z.eq_dec x v); lia.
Qed.

Lemma probability_range (signal : list Z) (v : Z) :
  In v signal -> (0 < probability signal v <= 1)%R.
Proof.
  intros Hv; unfold probability.
  assert (Hc : (0 < count_occ Z.eq_dec signal v)%nat)
    by now apply count_occ_In.
  pose proof (count_occ_le_length signal v) as Hle.
  assert (Hn : (0 < INR (length signal))%R) by (apply lt_0_INR; lia).
  assert (Hc' : (0 < INR (count_occ Z.eq_dec signal v))%R)
    by now apply lt_0_INR.
  apply le_INR in Hle.
  split.
  - now apply Rdiv_lt_0_compat.
  - apply Rmult_le_reg_r with (INR (length signal)); [exact Hn |].
    unfold Rdiv; rewrite Rmult_assoc, Rinv_l by lra; lra.
Qed.

Lemma inverse_ge_1 (p : R) : (0 < p <= 1)%R -> (1 <= 1 / p)%R.
Proof.
  intros [Hp Hp1].
  apply Rmult_le_reg_r with p; [exact Hp |].
  unfold Rdiv; rewrite Rmult_assoc, Rinv_l by lra; lra.
Qed.

Lemma inverse_gt_1 (p : R) : (0 < p < 1)%R -> (1 < 1 / p)%R.
Proof.
  intros [Hp Hp1].
  apply Rmult_lt_reg_r with p; [exact Hp |].
  unfold Rdiv; rewrite Rmult_assoc, Rinv_l by lra; lra.
Qed.

Lemma ln_nonneg (x : R) : (1 <= x)%R -> (0 <= ln x)%R.
Proof.
  intros [Hx | <-]; [| rewrite ln_1; lra].
  rewrite <- ln_1; left; apply ln_increasing; lra.
Qed.

Lemma shannon_term_nonneg (signal : list Z) (v : Z) :
  In v signal -> (0 <= shannon_term signal v)%R.
Proof.
  intros Hv; unfold shannon_term.
  pose proof (probability_range signal v Hv) as Hp.
  pose proof (ln_nonneg _ (inverse_ge_1 _ Hp)).
  pose proof ln_2_pos.
  apply Rmult_le_pos; [lra |].
  apply Rmult_le_pos; [lra |].
  left; now apply Rinv_0_lt_compat.
Qed.

Lemma shannon_term_positive (signal : list Z) (v : Z) :
  In v signal -> (probability signal v < 1)%R ->
  (0 < shannon_term signal v)%R.
Proof.
  intros Hv Hlt; unfold shannon_term.
  pose proof (probability_range signal v Hv) as Hp.
  assert (H1 : (1 < 1 / probability signal v)%R) by (apply inverse_gt_1; lra).
  assert (0 < ln (1 / probability signal v))%R
    by (rewrite <- ln_1; apply ln_increasing; lra).
  pose proof ln_2_pos.
  apply Rmult_lt_0_compat; [lra |].
  apply Rmult_lt_0_compat; [lra |].
  now apply Rinv_0_lt_compat.
Qed.

(** One step of the sum, for a value of the signal: nothing is raised and the
    value's term is added. *)
Lemma entropy_step (signal : list Z) (total : R) (v : Z) :
  In v signal ->
  (count <- dict_get (Counter signal) v ;;
   prob <- true_div count (len signal) ;;
   inv <- float_div 1 prob ;;
   bits <- log2 inv ;;
   Ok (total + prob * bits)%R)
  = Ok (total + shannon_term signal v)%R.
Proof.
  intros Hv.
  pose proof (probability_range signal v Hv) as Hp.
  pose proof (inverse_ge_1 _ Hp) as Hinv.
  rewrite (Counter_get signal v Hv); simpl.
  unfold true_div.
  assert (Hlen : len signal <> 0).
  { unfold len; destruct signal; [destruct Hv | simpl; lia]. }
  apply Z.eqb_neq in Hlen; rewrite Hlen; simpl.
  assert (Eprob : (IZR (Z.of_nat (count_occ Z.eq_dec signal v))
                   / IZR (len signal))%R = probability signal v).
  { unfold probability, len; now rewrite <- !INR_IZR_INZ. }
  rewrite Eprob.
  unfold float_div.
  destruct (Req_dec_T (probability signal v) 0) as [E0 | _]; [lra |]; simpl.
  unfold log2.
  destruct (Rle_dec (1 / probability signal v) 0) as [Hle | _]; [lra |]; simpl.
  reflexivity.
Qed.

Lemma entropy_fold (signal values : list Z) (total : R) :
  (forall v, In v values -> In v signal) ->
  fold_left
    (fun acc value =>
       total <- acc ;;
       count <- dict_get (Counter signal) value ;;
       prob <- true_div count (len signal) ;;
       inv <- float_div 1 prob ;;
       bits <- log2 inv ;;
       Ok (total + prob * bits)%R)
    values (Ok total)
  = Ok (total + Rsum (map (shannon_term signal) values))%R.
Proof.
  revert total; induction values as [| v values IH]; intros total Hin.
  - simpl; f_equal; lra.
  - cbn [fold_left map]. cbn [bind].
    rewrite (entropy_step signal total v) by (apply Hin; now left).
    rewrite IH by (intros; apply Hin; now right).
    f_equal; unfold Rsum; simpl; lra.
Qed.

(** On every signal, the empty one included, the estimator returns the
    Shannon entropy and raises nothing. *)
Lemma entropy_value (signal : list Z) :
  entropy signal = Ok (shannon_entropy signal).
Proof.
  unfold entropy.
  rewrite entropy_fold by (intros v Hv; now apply In_py_set).
  f_equal; rewrite Rplus_0_l; unfold shannon_entropy.
  apply Rsum_Permutation, Permutation_map, py_set_nodup.
Qed.

Lemma uniform_count (signal : list Z) (v : Z) :
  uniform signal -> In v signal ->
  count_occ Z.eq_dec signal v = length signal.
Proof.
  intros Hu Hv.
  assert (H : forall s, (forall x, In x s -> x = v) ->
                        count_occ Z.eq_dec s v = length s).
  { induction s as [| x s IH]; simpl; intros Hs; [reflexivity |].
    destruct (Z.eq_dec x v) as [_ | Hne].
    - f_equal; apply IH; intros; apply Hs; now right.
    - exfalso; apply Hne, Hs; now left. }
  apply H; intros x Hx; now apply Hu.
Qed.

Lemma shannon_uniform (signal : list Z) :
  uniform signal -> shannon_entropy signal = 0%R.
Proof.
  intros Hu; unfold shannon_entropy.
  apply Rsum_zero; intros x Hx.
  apply in_map_iff in Hx; destruct Hx as [v [<- Hv]].
  apply nodup_In in Hv.
  unfold shannon_term, probability.
  rewrite (uniform_count signal v Hu Hv).
  assert (Hn : (0 < INR (length signal))%R).
  { apply lt_0_INR; destruct signal; [destruct Hv | simpl; lia]. }
  replace (INR (length signal) / INR (length signal))%R with 1%R
    by (field; lra).
  replace (1 / 1)%R with 1%R by lra.
  rewrite ln_1; lra.
Qed.

Lemma shannon_nonneg (signal : list Z) : (0 <= shannon_entropy signal)%R.
Proof.
  unfold shannon_entropy; apply Rsum_nonneg; intros x Hx.
  apply in_map_iff in Hx; destruct Hx as [v [<- Hv]].
  apply nodup_In in Hv; now apply shannon_term_nonneg.
Qed.

Lemma count_occ_lt_length (s : list Z) (x y : Z) :
  In y s -> x <> y -> (count_occ Z.eq_dec s x < length s)%nat.
Proof.
  induction s as [| z s IH]; simpl; [intros [] |].
  intros [-> | Hy] Hne.
  - destruct (Z.eq_dec y x) as [E | _]; [congruence |].
    pose proof (count_occ_le_length s x); lia.
  - specialize (IH Hy Hne); destruct (Z.eq_dec z x); lia.
Qed.

Lemma shannon_positive (signal : list Z) (x y : Z) :
  In x signal -> In y signal -> x <> y -> (0 < shannon_entropy signal)%R.
Proof.
  intros Hx Hy Hne; unfold shannon_entropy.
  apply Rsum_positive with (shannon_term signal x).
  - intros t Ht; apply in_map_iff in Ht; destruct Ht as [v [<- Hv]].
    apply nodup_In in Hv; now apply shannon_term_nonneg.
  - apply in_map, nodup_In, Hx.
  - apply shannon_term_positive; [exact Hx |].
    unfold probability.
    pose proof (count_occ_lt_length signal x y Hy Hne) as Hlt.
    assert (Hn : (0 < INR (length signal))%R) by (apply lt_0_INR; lia).
    apply lt_INR in Hlt.
    apply Rmult_lt_reg_r with (INR (length signal)); [exact Hn |].
    unfold Rdiv; rewrite Rmult_assoc, Rinv_l by lra; lra.
Qed.

Lemma shannon_Permutation (s1 s2 : list Z) :
  Permutation s1 s2 -> shannon_entropy s1 = shannon_entropy s2.
Proof.
  intros Hp; unfold shannon_entropy.
  assert (Hterm : forall v, shannon_term s1 v = shannon_term s2 v).
  { intros v; unfold shannon_term, probability.
    rewrite (Permutation_count_occ Z.eq_dec s1 s2) in Hp.
    now rewrite (Hp v), (Permutation_length
      (proj2 (Permutation_count_occ Z.eq_dec s1 s2) Hp)). }
  rewrite (map_ext _ _ Hterm).
  apply Rsum_Permutation, Permutation_map.
  apply NoDup_Permutation; try apply NoDup_nodup.
  intros v; rewrite !nodup_In; split; intros Hv.
  - eapply Permutation_in; eassumption.
  - eapply Permutation_in; [apply Permutation_sym |]; eassumption.
Qed.

(** ** The estimator computes the Shannon entropy *)

(** C1: for every non-empty signal the entropy estimator returns the Shannon
    entropy in bits, the sum over the distinct values [v] of
    [p(v) * log2(1 / p(v))] with [p(v) = count(v) / length(signal)]; when all
    the values of the signal are the same, the result is exactly 0. *)
Theorem entropy_is_shannon (signal : list Z) :
  signal <> [] ->
  entropy signal = Ok (shannon_entropy signal)
  /\ (uniform signal -> entropy signal = Ok 0%R).
Proof.
  intros _; split; [apply entropy_value |].
  intros Hu; rewrite entropy_value; f_equal; now apply shannon_uniform.
Qed.

Lemma entropy_is_shannon_witness :
  [7; 7; 7] <> []
  /\ entropy [7; 7; 7] = Ok (shannon_entropy [7; 7; 7])
  /\ (uniform [7; 7; 7] -> entropy [7; 7; 7] = Ok 0%R).
Proof.
  split; [discriminate |].
  apply (entropy_is_shannon [7; 7; 7]); discriminate.
Defined.

(** C4, as the code has it: applying the entropy estimator to a signal of
    length 0 returns 0.  The probabilities are produced one per distinct
    value, so with no value the division by the length is never evaluated
    and nothing is raised. *)
Theorem entropy_empty : entropy [] = Ok 0%R.
Proof. reflexivity. Qed.

(** C4 as stated fails: on the empty signal a value is returned and no error
    is raised. *)
Lemma entropy_empty_not_an_error :
  entropy [] = Ok 0%R /\ ~ (exists e, entropy [] = Raise e).
Proof. split; [reflexivity | intros [e E]; discriminate]. Qed.

(** ** The two inner loops of the border search *)

Lemma find_start_Ok (rot : array) (w border : Z) (starts : list Z)
    (start : option Z) :
  exists start',
    find_start rot w border starts start = Ok start'
    /\ ((starts = [] /\ start' = start)
        \/ exists s, start' = Some s /\ In s starts).
Proof.
  revert start; induction starts as [| s starts IH]; intros start.
  - exists start; split; [reflexivity | now left].
  - cbn [find_start]; rewrite entropy_value; cbn [bind].
    destruct (Rgtb (shannon_entropy (region rot w border s)) 0).
    + exists (Some s); split; [reflexivity |].
      right; exists s; split; [reflexivity | now left].
    + destruct (IH (Some s)) as [st [E [[-> ->] | [s' [-> Hs']]]]].
      * exists (Some s); split; [exact E |].
        right; exists s; split; [reflexivity | now left].
      * exists (Some s'); split; [exact E |].
        right; exists s'; split; [reflexivity | now right].
Qed.

Lemma find_subborder_Ok (rot : array) (w border : Z) (thr : R)
    (centers : list Z) (subborder : Z) (delta : R) :
  exists subborder' delta',
    find_subborder rot w border thr centers subborder delta
    = Ok (subborder', delta')
    /\ (subborder' = subborder \/ In subborder' centers).
Proof.
  revert subborder delta; induction centers as [| c centers IH];
    intros subborder delta.
  - exists subborder, delta; split; [reflexivity | now left].
  - cbn [find_subborder]; rewrite !entropy_value; cbn [bind].
    match goal with
    | |- context [if ?b then _ else _] => destruct b
    end.
    + match goal with
      | |- context [find_subborder _ _ _ _ _ c ?d] =>
          destruct (IH c d) as [sb [d' [E H]]]
      end.
      exists sb, d'; split; [exact E |].
      right; destruct H as [-> | H]; [now left | now right].
    + destruct (IH subborder delta) as [sb [d' [E H]]].
      exists sb, d'; split; [exact E |].
      destruct H as [-> | H]; [now left | right; now right].
Qed.

(** ** Range of the border of one side *)

Lemma detect_range (fuel : nat) (cfg : config) (rot : array) (h w : Z) :
  forall (border : Z) (start : option Z) (border' : Z) (start' : option Z),
    0 <= border <= Z.max (reach cfg h) 0 ->
    start_ok start ->
    detect fuel cfg rot h w border start = Ok (border', start') ->
    0 <= border' <= Z.max (reach cfg h) 0 /\ start_ok start'.
Proof.
  induction fuel as [| fuel IH]; intros border start border' start' Hb Hs;
    [discriminate |].
  cbn [detect].
  destruct (find_start_Ok rot w border
              (py_range (border + 1) (reach cfg h + 1)) start)
    as [st1 [E1 Hst1]].
  rewrite E1; cbn [bind].
  assert (Hs1 : start_ok st1).
  { destruct Hst1 as [[_ ->] | [s [-> Hin]]]; [exact Hs |].
    apply In_py_range in Hin; simpl; lia. }
  destruct st1 as [s |]; [| discriminate].
  cbn [read_local bind].
  destruct (find_subborder_Ok rot w border (threshold cfg)
              (rev (py_range s (reach cfg h + 1))) 0 (threshold cfg))
    as [sb [d [E2 Hsb]]].
  rewrite E2; cbn [bind].
  assert (Hsb' : sb = 0 \/ s <= sb <= reach cfg h).
  { destruct Hsb as [-> | Hin]; [now left | right].
    apply in_rev, In_py_range in Hin; lia. }
  simpl in Hs1.
  destruct ((sb =? 0) || (border =? sb)) eqn:Estop.
  - intros E; inversion E; subst; split; [exact Hb | exact Hs1].
  - apply orb_false_iff in Estop; destruct Estop as [Hne0 _].
    apply Z.eqb_neq in Hne0.
    assert (Hrange : 0 <= sb <= Z.max (reach cfg h) 0) by lia.
    destruct (fast cfg).
    + intros E; inversion E; subst; split; [exact Hrange | exact Hs1].
    + intros E; apply (IH sb (Some s)); [exact Hrange | exact Hs1 | exact E].
Qed.

(** ** Termination of the border search

    Once [start] is bound to [s <= border], an iteration that goes on either
    raises [start] above the old border, or (when the range of [start] is
    empty, at [border = reach]) keeps [start] and moves the border below
    [reach]: twice the distance from [start] to [reach], plus one at
    [border = reach], decreases. *)

Lemma detect_terminates_from (cfg : config) (rot : array) (h w : Z)
    (fuel : nat) :
  forall (border s : Z),
    1 <= s <= border -> border <= reach cfg h ->
    2 * (reach cfg h - s) + (if border =? reach cfg h then 1 else 0)
      < Z.of_nat fuel ->
    detect fuel cfg rot h w border (Some s) <> Diverge.
Proof.
  induction fuel as [| fuel IH]; intros border s Hs Hb Hfuel.
  - destruct (border =? reach cfg h); lia.
  - cbn [detect].
    destruct (find_start_Ok rot w border
                (py_range (border + 1) (reach cfg h + 1)) (Some s))
      as [st1 [E1 Hst1]].
    rewrite E1; cbn [bind].
    assert (Hs1 : exists s1, st1 = Some s1 /\ s1 <= reach cfg h
                  /\ ((s1 = s /\ border = reach cfg h) \/ border < s1)).
    { destruct Hst1 as [[Hnil ->] | [s1 [-> Hin]]].
      - exists s; split; [reflexivity |]; split; [lia | left].
        split; [reflexivity |].
        destruct (Z.eq_dec border (reach cfg h)) as [E | Hne]; [exact E |].
        assert (Hin : In (border + 1)
                        (py_range (border + 1) (reach cfg h + 1)))
          by (apply In_py_range; lia).
        rewrite Hnil in Hin; destruct Hin.
      - apply In_py_range in Hin.
        exists s1; split; [reflexivity |]; split; [lia | right; lia]. }
    destruct Hs1 as [s1 [-> [Hs1R Hcase]]].
    cbn [read_local bind].
    destruct (find_subborder_Ok rot w border (threshold cfg)
                (rev (py_range s1 (reach cfg h + 1))) 0 (threshold cfg))
      as [sb [d [E2 Hsb]]].
    rewrite E2; cbn [bind].
    destruct ((sb =? 0) || (border =? sb)) eqn:Estop; [discriminate |].
    destruct (fast cfg); [discriminate |].
    apply orb_false_iff in Estop; destruct Estop as [Hne0 Hneb].
    apply Z.eqb_neq in Hne0; apply Z.eqb_neq in Hneb.
    assert (Hsb' : s1 <= sb <= reach cfg h).
    { destruct Hsb as [-> | Hin]; [contradiction |].
      apply in_rev, In_py_range in Hin; lia. }
    apply IH; [lia | lia |].
    destruct Hcase as [[-> Hb'] | Hlt].
    + assert (Esb : (sb =? reach cfg h) = false) by (apply Z.eqb_neq; lia).
      rewrite Esb.
      assert (Eb : (border =? reach cfg h) = true) by (apply Z.eqb_eq; lia).
      rewrite Eb in Hfuel; lia.
    + destruct (sb =? reach cfg h); destruct (border =? reach cfg h); lia.
Qed.

(** From border 0, whatever [start] holds, [2 * reach + 1] iterations are
    enough ([3] when [reach < 1]). *)
Lemma detect_terminates (cfg : config) (rot : array) (h w : Z) (fuel : nat)
    (start : option Z) :
  start_ok start ->
  2 * Z.max (reach cfg h) 1 < Z.of_nat fuel ->
  detect fuel cfg rot h w 0 start <> Diverge.
Proof.
  intros Hs Hfuel.
  destruct fuel as [| fuel]; [lia |].
  cbn [detect].
  destruct (find_start_Ok rot w 0 (py_range (0 + 1) (reach cfg h + 1)) start)
    as [st1 [E1 Hst1]].
  rewrite E1; cbn [bind].
  assert (Hs1 : start_ok st1
                /\ (st1 = start \/ exists s1, st1 = Some s1
                                              /\ 1 <= s1 <= reach cfg h)).
  { destruct Hst1 as [[_ ->] | [s1 [-> Hin]]]; [split; [exact Hs | now left] |].
    apply In_py_range in Hin; split; [simpl; lia |].
    right; exists s1; split; [reflexivity | lia]. }
  destruct Hs1 as [Hok Hs1].
  destruct st1 as [s1 |]; [| discriminate].
  cbn [read_local bind]; simpl in Hok.
  destruct (find_subborder_Ok rot w 0 (threshold cfg)
              (rev (py_range s1 (reach cfg h + 1))) 0 (threshold cfg))
    as [sb [d [E2 Hsb]]].
  rewrite E2; cbn [bind].
  destruct ((sb =? 0) || (0 =? sb)) eqn:Estop; [discriminate |].
  destruct (fast cfg); [discriminate |].
  apply orb_false_iff in Estop; destruct Estop as [Hne0 _].
  apply Z.eqb_neq in Hne0.
  assert (Hsb' : s1 <= sb <= reach cfg h).
  { destruct Hsb as [-> | Hin]; [contradiction |].
    apply in_rev, In_py_range in Hin; lia. }
  apply detect_terminates_from; [lia | lia |].
  destruct (sb =? reach cfg h); lia.
Qed.

(** One iteration of the loop. *)
Lemma detect_S (fuel : nat) (cfg : config) (rot : array) (h w border : Z)
    (start : option Z) :
  detect (S fuel) cfg rot h w border start
  = (start <- find_start rot w border
                (py_range (border + 1) (reach cfg h + 1)) start ;;
     s <- read_local start ;;
     ' (subborder, _) <- find_subborder rot w border (threshold cfg)
                           (rev (py_range s (reach cfg h + 1)))
                           0 (threshold cfg) ;;
     if (subborder =? 0) || (border =? subborder) then Ok (border, start)
     else if fast cfg then Ok (subborder, start)
     else detect fuel cfg rot h w subborder start).
Proof. reflexivity. Qed.

(** More budget does not change a result. *)
Lemma detect_fuel_mono (cfg : config) (rot : array) (h w : Z) (fuel : nat) :
  forall (border : Z) (start : option Z),
    detect fuel cfg rot h w border start <> Diverge ->
    detect (S fuel) cfg rot h w border start
    = detect fuel cfg rot h w border start.
Proof.
  induction fuel as [| fuel IH]; intros border start Hnd;
    [now contradiction Hnd |].
  rewrite (detect_S (S fuel)); rewrite detect_S in Hnd.
  rewrite (detect_S fuel).
  destruct (find_start rot w border _ start) as [st1 | e |]; cbn [bind] in *;
    try reflexivity.
  destruct (read_local st1) as [s | e |]; cbn [bind] in *; try reflexivity.
  destruct (find_subborder rot w border _ _ 0 _) as [[sb d] | e |];
    cbn [bind] in *; try reflexivity.
  destruct ((sb =? 0) || (border =? sb)); [reflexivity |].
  destruct (fast cfg); [reflexivity |].
  now apply IH.
Qed.

(** ** Arrays *)

Lemma py_slice_full {A : Type} (l : list A) : py_slice l 0 (len l) = l.
Proof.
  rewrite py_slice_prefix by apply len_nonneg.
  unfold len; rewrite Nat2Z.id; apply firstn_all.
Qed.

Lemma hcat_length (a b : array) :
  length (hcat a b) = Nat.min (length a) (length b).
Proof.
  revert b; induction a as [| x a IH]; intros [| y b]; simpl; auto.
Qed.

Lemma hstack_fold_length (rest : list array) (a : array) :
  (forall b, In b rest -> length b = length a) ->
  length (fold_left hcat rest a) = length a.
Proof.
  revert a; induction rest as [| b rest IH]; intros a Hrest; simpl;
    [reflexivity |].
  assert (Hb : length (hcat a b) = length a).
  { rewrite hcat_length, (Hrest b) by now left. apply Nat.min_id. }
  rewrite IH; [exact Hb |].
  intros c Hc; rewrite Hb; apply Hrest; now right.
Qed.

Lemma all_pixels_hcat (P : Z -> Prop) (a b : array) :
  all_pixels P a -> all_pixels P b -> all_pixels P (hcat a b).
Proof.
  unfold all_pixels; intros Ha; revert b.
  induction Ha as [| x a Hx Ha IH]; intros b Hb; simpl; [constructor |].
  destruct Hb as [| y b Hy Hb]; constructor.
  - apply Forall_app; now split.
  - now apply IH.
Qed.

Lemma all_pixels_fold (P : Z -> Prop) (rest : list array) (a : array) :
  all_pixels P a -> (forall b, In b rest -> all_pixels P b) ->
  all_pixels P (fold_left hcat rest a).
Proof.
  revert a; induction rest as [| b rest IH]; intros a Ha Hrest; simpl;
    [exact Ha |].
  apply IH.
  - apply all_pixels_hcat; [exact Ha | apply Hrest; now left].
  - intros c Hc; apply Hrest; now right.
Qed.

Lemma Forall_py_slice {A : Type} (P : A -> Prop) (l : list A) (a b : Z) :
  Forall P l -> Forall P (py_slice l a b).
Proof.
  rewrite !Forall_forall; intros Hl x Hx.
  now apply Hl, (py_slice_incl l a b).
Qed.

Lemma all_pixels_slice2 (P : Z -> Prop) (a : array) (r0 r1 c0 c1 : Z) :
  all_pixels P a -> all_pixels P (slice2 a r0 r1 c0 c1).
Proof.
  unfold all_pixels, slice2; intros Ha.
  apply Forall_map.
  apply (Forall_py_slice _ _ r0 r1) in Ha.
  eapply Forall_impl; [| exact Ha].
  intros row Hrow; now apply Forall_py_slice.
Qed.

Lemma slice2_height (a : array) (c0 c1 : Z) :
  length (slice2 a 0 (len a) c0 c1) = length a.
Proof. unfold slice2; now rewrite length_map, py_slice_full. Qed.

Lemma region_pixels (P : Z -> Prop) (rot : array) (w a b : Z) :
  all_pixels P rot -> Forall P (region rot w a b).
Proof.
  intros Hrot; unfold region, flatten.
  apply Forall_concat.
  now apply (all_pixels_slice2 P rot a b 0 w).
Qed.

Lemma region_uniform (v : Z) (rot : array) (w a b : Z) :
  all_pixels (eq v) rot -> uniform (region rot w a b).
Proof.
  intros Hrot x y Hx Hy.
  pose proof (region_pixels _ rot w a b Hrot) as H.
  rewrite Forall_forall in H.
  now rewrite <- (H x Hx), <- (H y Hy).
Qed.

Lemma shape_height (a : array) : fst (shape a) = len a.
Proof. reflexivity. Qed.

(** ** The reduced view of a side *)

Lemma reduced_view_spec {rng : Type} `{RandomSource rng}
    (cfg : config) (arr : array) (side : nat) (g g' : rng) (view : array) :
  reduced_view cfg arr side g = (Ok view, g') ->
  fst (shape view) = side_height arr side
  /\ forall P, all_pixels P (rot90 side arr) -> all_pixels P view.
Proof.
  unfold reduced_view, side_height.
  set (rot := rot90 side arr).
  rewrite !shape_height.
  change (shape rot) with (len rot, snd (shape rot)); cbv iota beta.
  destruct (randoms_paginate _ _ _ g) as [cols g1].
  intros E; inversion E as [[Eview Eg]]; clear E.
  destruct cols as [| r cols]; [discriminate |].
  cbn [map hstack] in Eview; inversion Eview as [Ev]; clear Eview.
  split.
  - unfold len; f_equal.
    rewrite hstack_fold_length; [apply slice2_height |].
    intros b Hb; apply in_map_iff in Hb; destruct Hb as [r' [<- _]].
    now rewrite !slice2_height.
  - intros P HP; apply all_pixels_fold.
    + now apply all_pixels_slice2.
    + intros b Hb; apply in_map_iff in Hb; destruct Hb as [r' [<- _]].
      now apply all_pixels_slice2.
Qed.

Lemma In_set_nonempty (l : list Z) (x : Z) : In x l -> py_set l <> [].
Proof.
  intros Hx E; apply In_py_set in Hx; rewrite E in Hx; destruct Hx.
Qed.

(** With no cap on the stripes, the generator is not used and a view of
    positive width is never empty. *)
Lemma reduced_view_uncapped {rng : Type} `{RandomSource rng}
    (cfg : config) (arr : array) (side : nat) (g : rng) :
  max_stripes cfg = None ->
  1 <= snd (shape (rot90 side arr)) ->
  exists view, reduced_view cfg arr side g = (Ok view, g).
Proof.
  intros Hcap Hw; unfold reduced_view.
  set (rot := rot90 side arr) in *.
  change (shape rot) with (len rot, snd (shape rot)); cbv iota beta.
  unfold randoms_paginate; rewrite Hcap.
  set (cols := py_set _).
  assert (Hcols : cols <> []).
  { unfold cols; apply In_set_nonempty with 0.
    apply filter_In; split; [apply In_py_range; lia | reflexivity]. }
  destruct cols as [| r cols]; [contradiction |].
  cbn [map hstack]; eexists; reflexivity.
Qed.

(** ** Range of the borders of a frame *)

Lemma scan_side_range {rng : Type} `{RandomSource rng}
    (fuel : nat) (cfg : config) (arr : array) (side : nat)
    (start start' : option Z) (g g' : rng) (border : Z) :
  start_ok start ->
  scan_side fuel cfg arr side start g = (Ok (border, start'), g') ->
  0 <= border <= Z.max (reach cfg (side_height arr side)) 0
  /\ start_ok start'.
Proof.
  intros Hs; unfold scan_side.
  destruct (reduced_view cfg arr side g) as [view g1] eqn:Eview.
  destruct view as [rot | e |]; cbn [bind]; try discriminate.
  destruct (reduced_view_spec cfg arr side g g1 rot Eview) as [Hh _].
  change (shape rot) with (fst (shape rot), snd (shape rot)); cbv iota beta.
  rewrite Hh.
  intros E; inversion E as [[Edet Eg]]; clear E.
  eapply (detect_range fuel cfg rot); [| exact Hs | exact Edet]; lia.
Qed.

Lemma scan_sides_range {rng : Type} `{RandomSource rng}
    (fuel : nat) (cfg : config) (arr : array) (sides : list nat) :
  forall (start : option Z) (g g' : rng) (borders : list Z),
    start_ok start ->
    scan_sides fuel cfg arr sides start g = (Ok borders, g') ->
    Forall2
      (fun side border =>
         0 <= border <= Z.max (reach cfg (side_height arr side)) 0)
      sides borders.
Proof.
  induction sides as [| side sides IH]; intros start g g' borders Hs.
  - simpl; intros E; inversion E; constructor.
  - cbn [scan_sides].
    destruct (scan_side fuel cfg arr side start g) as [[[b st] | e |] g1]
      eqn:Eside; try discriminate.
    destruct (scan_side_range _ _ _ _ _ _ _ _ _ Hs Eside) as [Hb Hst].
    destruct (scan_sides fuel cfg arr sides st g1) as [rest g2] eqn:Erest.
    destruct rest as [bs | e |]; cbn [bind]; try discriminate.
    intros E; inversion E; subst.
    constructor; [exact Hb |].
    now apply (IH st g1 g').
Qed.

(** ** Blank frames *)

Lemma Rgtb_0_0 : Rgtb 0 0 = false.
Proof. unfold Rgtb; destruct (Rgt_dec 0 0); [lra | reflexivity]. Qed.

Lemma Rneqb_0_0 : Rneqb 0 0 = false.
Proof. unfold Rneqb; destruct (Req_dec_T 0 0); [reflexivity | lra]. Qed.

Lemma Rltb_irrefl (x : R) : Rltb x x = false.
Proof. unfold Rltb; destruct (Rlt_dec x x); [lra | reflexivity]. Qed.

Lemma find_start_flat (v : Z) (rot : array) (w border : Z)
    (starts : list Z) (start : option Z) :
  all_pixels (eq v) rot ->
  find_start rot w border starts start
  = Ok (fold_left (fun _ s => Some s) starts start).
Proof.
  intros Hrot; revert start; induction starts as [| s starts IH];
    intros start; [reflexivity |].
  cbn [find_start]; rewrite entropy_value; cbn [bind].
  rewrite (shannon_uniform _ (region_uniform v rot w border s Hrot)).
  rewrite Rgtb_0_0; apply IH.
Qed.

Lemma last_start_bound (starts : list Z) (s : Z) :
  exists s', fold_left (fun _ s => Some s) starts (Some s) = Some s'.
Proof.
  revert s; induction starts as [| x starts IH]; intros s; simpl.
  - now exists s.
  - apply IH.
Qed.

Lemma find_subborder_flat (v : Z) (rot : array) (w border : Z) (thr : R)
    (centers : list Z) (subborder : Z) (delta : R) :
  all_pixels (eq v) rot ->
  find_subborder rot w border thr centers subborder delta
  = Ok (subborder, delta).
Proof.
  intros Hrot; induction centers as [| c centers IH]; [reflexivity |].
  cbn [find_subborder]; rewrite !entropy_value; cbn [bind].
  rewrite (shannon_uniform _ (region_uniform v rot w c _ Hrot)).
  rewrite Rneqb_0_0, Rltb_irrefl; exact IH.
Qed.

Lemma detect_flat (v : Z) (fuel : nat) (cfg : config) (rot : array)
    (h w : Z) (start : option Z) :
  all_pixels (eq v) rot ->
  1 <= reach cfg h \/ (exists s, start = Some s) ->
  exists s', detect (S fuel) cfg rot h w 0 start = Ok (0, Some s').
Proof.
  intros Hrot Hstart; rewrite detect_S.
  rewrite (find_start_flat v) by exact Hrot; cbn [bind].
  assert (Hs : exists s',
             fold_left (fun _ s => Some s)
               (py_range (0 + 1) (reach cfg h + 1)) start = Some s').
  { destruct Hstart as [HR | [s ->]]; [| apply last_start_bound].
    assert (Hin : In 1 (py_range (0 + 1) (reach cfg h + 1)))
      by (apply In_py_range; lia).
    destruct (py_range (0 + 1) (reach cfg h + 1)) as [| x l];
      [destruct Hin | apply last_start_bound]. }
  destruct Hs as [s' ->]; exists s'.
  cbn [read_local bind].
  rewrite (find_subborder_flat v) by exact Hrot; reflexivity.
Qed.

Lemma map_const_seq {A : Type} (f : nat -> A) (x : A) (n k : nat) :
  (forall j, (k <= j < k + n)%nat -> f j = x) ->
  map f (seq k n) = repeat x n.
Proof.
  revert k; induction n as [| n IH]; intros k Hf; simpl; [reflexivity |].
  rewrite Hf by lia; f_equal.
  apply IH; intros j Hj; apply Hf; lia.
Qed.

Lemma shape_blank (v : Z) (h w : nat) :
  (1 <= h)%nat -> shape (blank v h w) = (Z.of_nat h, Z.of_nat w).
Proof.
  intros Hh; unfold shape, blank, len.
  rewrite repeat_length.
  destruct h as [| h]; [lia |]; cbn [repeat].
  now rewrite repeat_length.
Qed.

Lemma quarter_turn_blank (v : Z) (h w : nat) :
  (1 <= h)%nat -> rev (transpose (blank v h w)) = blank v w h.
Proof.
  intros Hh; unfold transpose.
  rewrite (shape_blank v h w Hh); cbn [snd]; rewrite Nat2Z.id.
  rewrite (map_const_seq _ (repeat v h)).
  - apply rev_repeat.
  - intros j Hj; unfold column, blank.
    rewrite map_repeat; f_equal.
    apply nth_repeat_lt; lia.
Qed.

Lemma rot90_blank (v : Z) (h w : nat) (side : nat) :
  (1 <= h)%nat -> (1 <= w)%nat ->
  rot90 side (blank v h w)
  = if Nat.even side then blank v h w else blank v w h.
Proof.
  intros Hh Hw; induction side as [| side IH]; [reflexivity |].
  cbn [rot90]; rewrite IH, Nat.even_succ, <- Nat.negb_even.
  destruct (Nat.even side); cbn [negb]; now apply quarter_turn_blank.
Qed.

Lemma all_pixels_blank (v : Z) (h w : nat) : all_pixels (eq v) (blank v h w).
Proof.
  unfold all_pixels, blank; apply Forall_forall; intros row Hrow.
  apply repeat_spec in Hrow; subst row.
  apply Forall_forall; intros x Hx; symmetry; now apply (repeat_spec w).
Qed.

Lemma scan_side_blank {rng : Type} `{RandomSource rng}
    (fuel : nat) (cfg : config) (v : Z) (h w : nat) (side : nat)
    (start : option Z) (g : rng) :
  (1 <= h)%nat -> (1 <= w)%nat ->
  max_stripes cfg = None ->
  1 <= reach cfg (side_height (blank v h w) side)
  \/ (exists s, start = Some s) ->
  exists s',
    scan_side (S fuel) cfg (blank v h w) side start g
    = (Ok (0, Some s'), g).
Proof.
  intros Hh Hw Hcap Hstart.
  assert (Hpix : all_pixels (eq v) (rot90 side (blank v h w))).
  { rewrite rot90_blank by assumption.
    destruct (Nat.even side); apply all_pixels_blank. }
  assert (Hwidth : 1 <= snd (shape (rot90 side (blank v h w)))).
  { rewrite rot90_blank by assumption.
    destruct (Nat.even side); rewrite shape_blank by assumption;
      cbn [snd]; lia. }
  destruct (reduced_view_uncapped cfg _ side g Hcap Hwidth) as [view Eview].
  destruct (reduced_view_spec cfg _ side g g view Eview) as [Hheight Hview].
  unfold scan_side; rewrite Eview; cbn [bind].
  change (shape view) with (fst (shape view), snd (shape view));
    cbv iota beta.
  destruct (detect_flat v fuel cfg view (fst (shape view)) (snd (shape view))
              start (Hview _ Hpix)) as [s' E].
  - now rewrite Hheight.
  - exists s'; now rewrite E.
Qed.

Lemma scan_sides_cons {rng : Type} `{RandomSource rng}
    (fuel : nat) (cfg : config) (arr : array) (side : nat)
    (sides : list nat) (start : option Z) (g : rng) :
  scan_sides fuel cfg arr (side :: sides) start g
  = match scan_side fuel cfg arr side start g with
    | (Ok (border, start), g) =>
        let (rest, g) := scan_sides fuel cfg arr sides start g in
        (borders <- rest ;; Ok (border :: borders), g)
    | (Raise e, g) => (Raise e, g)
    | (Diverge, g) => (Diverge, g)
    end.
Proof. reflexivity. Qed.

Lemma scan_sides_blank {rng : Type} `{RandomSource rng}
    (fuel : nat) (cfg : config) (v : Z) (h w : nat) (sides : list nat) :
  (1 <= h)%nat -> (1 <= w)%nat ->
  max_stripes cfg = None ->
  forall (s : Z) (g : rng),
    scan_sides (S fuel) cfg (blank v h w) sides (Some s) g
    = (Ok (repeat 0 (length sides)), g).
Proof.
  intros Hh Hw Hcap; induction sides as [| side sides IH]; intros s g;
    [reflexivity |].
  rewrite scan_sides_cons.
  destruct (scan_side_blank fuel cfg v h w side (Some s) g Hh Hw Hcap)
    as [s' E]; [right; now exists s |].
  rewrite E, IH; reflexivity.
Qed.

(** A blank frame within reach on side 0: every border is 0, after one
    iteration per side, and the generator is untouched. *)
Lemma scan_frame_blank {rng : Type} `{RandomSource rng}
    (fuel : nat) (cfg : config) (v : Z) (h w : nat) (g : rng) :
  (1 <= h)%nat -> (1 <= w)%nat ->
  max_stripes cfg = None ->
  1 <= reach cfg (Z.of_nat h) ->
  scan_frame (S fuel) cfg (blank v h w) g = (Ok [0; 0; 0; 0], g).
Proof.
  intros Hh Hw Hcap HR; unfold scan_frame.
  rewrite scan_sides_cons.
  destruct (scan_side_blank fuel cfg v h w 0 None g Hh Hw Hcap) as [s' E].
  { left; unfold side_height; cbn [rot90].
    now rewrite shape_blank. }
  rewrite E, (scan_sides_blank fuel cfg v h w [1; 2; 3]%nat Hh Hw Hcap).
  reflexivity.
Qed.

(** ** Termination of the scan of a frame *)

(** With the budget that is enough for every side, the scan of a frame ends:
    it returns the borders or raises. *)
Lemma scan_sides_terminates {rng : Type} `{RandomSource rng}
    (fuel : nat) (cfg : config) (arr : array) (sides : list nat) :
  (forall side, In side sides ->
     2 * Z.max (reach cfg (side_height arr side)) 1 < Z.of_nat fuel) ->
  forall (start : option Z) (g : rng),
    start_ok start ->
    fst (scan_sides fuel cfg arr sides start g) <> Diverge.
Proof.
  induction sides as [| side sides IH]; intros Hfuel start g Hs;
    [discriminate |].
  rewrite scan_sides_cons.
  destruct (scan_side fuel cfg arr side start g) as [[[b st] | e |] g1]
    eqn:Eside; cbn [fst]; try discriminate.
  - destruct (scan_side_range _ _ _ _ _ _ _ _ _ Hs Eside) as [_ Hst].
    specialize (IH (fun s Hin => Hfuel s (or_intror Hin)) st g1 Hst).
    destruct (scan_sides fuel cfg arr sides st g1) as [[bs | e |] g2];
      cbn [fst bind] in *; try discriminate.
    now contradiction IH.
  - exfalso; unfold scan_side in Eside.
    destruct (reduced_view cfg arr side g) as [view g2] eqn:Eview.
    destruct view as [rot | e |]; cbn [bind] in Eside; try discriminate.
    + destruct (reduced_view_spec cfg arr side g g2 rot Eview) as [Hh _].
      change (shape rot) with (fst (shape rot), snd (shape rot)) in Eside;
        cbv iota beta in Eside.
      rewrite Hh in Eside; inversion Eside as [[Edet Eg]].
      revert Edet; apply detect_terminates; [exact Hs |].
      apply Hfuel; now left.
    + unfold reduced_view in Eview.
      destruct (shape (rot90 side arr)) as [h w].
      destruct (randoms_paginate w _ _ g) as [cols g3].
      inversion Eview as [[Estack Eg]].
      destruct cols; discriminate.
Qed.

Lemma scan_frame_terminates {rng : Type} `{RandomSource rng}
    (fuel : nat) (cfg : config) (arr : array) (g : rng) :
  (forall side, (side < 4)%nat ->
     2 * Z.max (reach cfg (side_height arr side)) 1 < Z.of_nat fuel) ->
  fst (scan_frame fuel cfg arr g) <> Diverge.
Proof.
  intros Hfuel; unfold scan_frame; apply scan_sides_terminates; [| exact I].
  intros side [<- | [<- | [<- | [<- | []]]]]; apply Hfuel; lia.
Qed.

(** ** The borders stay within reach *)

(** C2: whenever the scan of a frame returns, the border of every side whose
    [round(indent * h)] is at least 1 ([h] the height of the side's rotated
    view) lies between 0 and [round(indent * h)]. *)
Theorem border_offset_within_reach {rng : Type} `{RandomSource rng}
    (fuel : nat) (cfg : config) (arr : array) (g g' : rng)
    (borders : list Z) (side : nat) :
  scan_frame fuel cfg arr g = (Ok borders, g') ->
  (side < 4)%nat ->
  1 <= reach cfg (side_height arr side) ->
  exists offset,
    nth_error borders side = Some offset
    /\ 0 <= offset <= reach cfg (side_height arr side).
Proof.
  unfold scan_frame; intros Escan Hside HR.
  apply scan_sides_range in Escan; [| exact I].
  inversion Escan as [| ? b0 ? l0 H0 F0]; subst.
  inversion F0 as [| ? b1 ? l1 H1 F1]; subst.
  inversion F1 as [| ? b2 ? l2 H2 F2]; subst.
  inversion F2 as [| ? b3 ? l3 H3 F3]; subst.
  destruct side as [| [| [| [| side]]]]; [| | | | lia]; cbn [nth_error];
    eexists; (split; [reflexivity | lia]).
Qed.

Lemma border_offset_within_reach_witness :
  exists offset,
    nth_error [0; 0; 0; 0] 0 = Some offset
    /\ 0 <= offset <= reach default_config (side_height (blank 7 4 4) 0).
Proof.
  apply (border_offset_within_reach 1 default_config (blank 7 4 4)
           0%nat 0%nat [0; 0; 0; 0] 0).
  - apply scan_frame_blank; [lia | lia | reflexivity | vm_compute; discriminate].
  - lia.
  - vm_compute; discriminate.
Defined.

(** ** A start range that is empty on the first side *)

Lemma detect_unbound (fuel : nat) (cfg : config) (rot : array) (h w : Z) :
  reach cfg h < 1 ->
  detect (S fuel) cfg rot h w 0 None = Raise UnboundLocalError.
Proof.
  intros HR; rewrite detect_S.
  rewrite py_range_empty by lia; reflexivity.
Qed.

Lemma scan_frame_unbound {rng : Type} `{RandomSource rng}
    (fuel : nat) (cfg : config) (arr view : array) (g g' : rng) :
  reduced_view cfg arr 0 g = (Ok view, g') ->
  reach cfg (side_height arr 0) < 1 ->
  scan_frame (S fuel) cfg arr g = (Raise UnboundLocalError, g').
Proof.
  intros Eview HR; unfold scan_frame; rewrite scan_sides_cons.
  unfold scan_side; rewrite Eview; cbn [bind].
  destruct (reduced_view_spec cfg arr 0 g g' view Eview) as [Hh _].
  change (shape view) with (fst (shape view), snd (shape view));
    cbv iota beta.
  rewrite detect_unbound by (now rewrite Hh); reflexivity.
Qed.

(** C5, at a failing input: the two-by-two frame with the default
    configuration.  On side 0, [round(indent * h) = round(0.5) = 0 < 1]; the
    range of [start] is empty, and reading [start] for the range of [center]
    raises [UnboundLocalError]: the scan ends in an error, with no border. *)
Theorem out_of_reach_first_side_raises :
  reach default_config (side_height tiny_frame 0) = 0
  /\ forall fuel : nat,
       scan_frame (S fuel) default_config tiny_frame 0%nat
       = (Raise UnboundLocalError, 0%nat).
Proof.
  split; [reflexivity |].
  intros fuel; apply (scan_frame_unbound fuel default_config tiny_frame
                        tiny_frame).
  - reflexivity.
  - reflexivity.
Qed.

(** C3, at a failing input: the blank two-by-two frame with the default
    configuration, whose threshold and indent are in range.  The scan raises
    [UnboundLocalError] on side 0 and returns no border. *)
Theorem blank_tiny_frame_raises :
  forall fuel : nat,
    scan_frame (S fuel) default_config (blank 7 2 2) 0%nat
    = (Raise UnboundLocalError, 0%nat).
Proof.
  intros fuel; apply (scan_frame_unbound fuel default_config (blank 7 2 2)
                        (blank 7 2 2)).
  - reflexivity.
  - reflexivity.
Qed.

(** ** Stepping through the two inner loops *)

Lemma uniform_const (v : Z) (s : list Z) : Forall (eq v) s -> uniform s.
Proof.
  rewrite Forall_forall; intros H x y Hx Hy.
  now rewrite <- (H x Hx), <- (H y Hy).
Qed.

Lemma find_start_break (rot : array) (w border s : Z) (starts : list Z)
    (start : option Z) :
  (0 < shannon_entropy (region rot w border s))%R ->
  find_start rot w border (s :: starts) start = Ok (Some s).
Proof.
  intros Hpos; cbn [find_start]; rewrite entropy_value; cbn [bind].
  unfold Rgtb; destruct (Rgt_dec _ 0); [reflexivity | lra].
Qed.

Lemma find_start_pass (rot : array) (w border s : Z) (starts : list Z)
    (start : option Z) :
  uniform (region rot w border s) ->
  find_start rot w border (s :: starts) start
  = find_start rot w border starts (Some s).
Proof.
  intros Hu; cbn [find_start]; rewrite entropy_value; cbn [bind].
  now rewrite (shannon_uniform _ Hu), Rgtb_0_0.
Qed.

Lemma find_subborder_pass (rot : array) (w border : Z) (thr : R) (c : Z)
    (centers : list Z) (subborder : Z) (delta : R) :
  uniform (region rot w c (2 * c - border)) ->
  find_subborder rot w border thr (c :: centers) subborder delta
  = find_subborder rot w border thr centers subborder delta.
Proof.
  intros Hu; cbn [find_subborder]; rewrite !entropy_value; cbn [bind].
  now rewrite (shannon_uniform _ Hu), Rneqb_0_0, Rltb_irrefl.
Qed.

Lemma find_subborder_take (rot : array) (w border : Z) (thr : R) (c : Z)
    (centers : list Z) (subborder : Z) (delta : R) :
  let upper := shannon_entropy (region rot w border c) in
  let lower := shannon_entropy (region rot w c (2 * c - border)) in
  (0 < lower)%R -> (upper / lower < delta)%R -> (upper / lower < thr)%R ->
  find_subborder rot w border thr (c :: centers) subborder delta
  = find_subborder rot w border thr centers c (upper / lower)%R.
Proof.
  intros upper lower Hpos Hd Ht.
  cbn [find_subborder]; rewrite !entropy_value; cbn [bind].
  fold upper lower.
  unfold Rneqb; destruct (Req_dec_T lower 0) as [E | _]; [lra |].
  unfold Rltb.
  destruct (Rlt_dec (upper / lower) delta) as [_ | N]; [| contradiction].
  destruct (Rlt_dec (upper / lower) thr) as [_ | N]; [| contradiction].
  reflexivity.
Qed.

(** ** The search on [marked_frame], with [fast] off *)

Lemma marked_reach : reach slow_config 16 = 4.
Proof. reflexivity. Qed.

(** First iteration, from border 0: [start] stops at 1 and the sub-border
    is 4. *)
Lemma marked_first_iteration (fuel : nat) :
  detect (S fuel) slow_config marked_frame 16 2 0 None
  = detect fuel slow_config marked_frame 16 2 4 (Some 1).
Proof.
  rewrite detect_S, marked_reach.
  change (py_range (0 + 1) (4 + 1)) with [1; 2; 3; 4].
  rewrite find_start_break by marked_region shannon_positive.
  cbn [bind read_local].
  change (rev (py_range 1 (4 + 1))) with [4; 3; 2; 1].
  change (threshold slow_config) with 2%R.
  assert (Hupper : (0 < shannon_entropy (region marked_frame 2 0 4))%R)
    by marked_region shannon_positive.
  assert (Hlower : shannon_entropy (region marked_frame 2 4 (2 * 4 - 0))
                   = shannon_entropy (region marked_frame 2 0 4)).
  { apply shannon_Permutation.
    apply Permutation_trans with (1 :: [0; 0; 0; 0; 0; 0; 0]).
    - change (region marked_frame 2 4 (2 * 4 - 0))
        with ([0; 0; 0; 0; 0; 0; 0] ++ [1]).
      apply Permutation_sym, Permutation_cons_app.
      rewrite app_nil_r; apply Permutation_refl.
    - change (region marked_frame 2 0 4)
        with ([0] ++ 1 :: [0; 0; 0; 0; 0; 0]).
      apply Permutation_cons_app, Permutation_refl. }
  assert (Hdiff : (shannon_entropy (region marked_frame 2 0 4)
                   / shannon_entropy (region marked_frame 2 4 (2 * 4 - 0))
                   = 1)%R).
  { rewrite Hlower; field; lra. }
  rewrite find_subborder_take; [| rewrite Hlower; exact Hupper
                                 | rewrite Hdiff; lra | rewrite Hdiff; lra].
  rewrite find_subborder_pass by flat_region uniform_const.
  rewrite find_subborder_pass by flat_region uniform_const.
  rewrite find_subborder_pass by flat_region uniform_const.
  reflexivity.
Qed.

(** Second iteration, from border 4: the range of [start] is empty, so
    [start] is still 1 and [center] runs from 4 down to 1.  At [center = 1]
    the slice [rot[1:-2]] counts its end from the bottom and holds rows 1
    to 13, whose entropy is positive, while [rot[4:1]] is empty: the ratio
    is 0 and the sub-border is 1. *)
Lemma marked_second_iteration (fuel : nat) :
  detect (S fuel) slow_config marked_frame 16 2 4 (Some 1)
  = detect fuel slow_config marked_frame 16 2 1 (Some 1).
Proof.
  rewrite detect_S, marked_reach.
  change (py_range (4 + 1) (4 + 1)) with (@nil Z).
  cbn [find_start bind read_local].
  change (rev (py_range 1 (4 + 1))) with [4; 3; 2; 1].
  change (threshold slow_config) with 2%R.
  rewrite find_subborder_pass by flat_region uniform_const.
  rewrite find_subborder_pass by flat_region uniform_const.
  rewrite find_subborder_pass by flat_region uniform_const.
  assert (Hupper : shannon_entropy (region marked_frame 2 4 1) = 0%R)
    by (apply shannon_uniform; flat_region uniform_const).
  assert (Hlower : (0 < shannon_entropy
                         (region marked_frame 2 1 (2 * 1 - 4)))%R)
    by marked_region shannon_positive.
  assert (Hdiff : (shannon_entropy (region marked_frame 2 4 1)
                   / shannon_entropy (region marked_frame 2 1 (2 * 1 - 4))
                   = 0)%R)
    by (rewrite Hupper; apply Rmult_0_l).
  rewrite find_subborder_take; [| exact Hlower
                                 | rewrite Hdiff; lra | rewrite Hdiff; lra].
  reflexivity.
Qed.

(** Third iteration, from border 1: no [start] and no [center] finds
    anything, and the search stops. *)
Lemma marked_third_iteration (fuel : nat) :
  detect (S fuel) slow_config marked_frame 16 2 1 (Some 1)
  = Ok (1, Some 4).
Proof.
  rewrite detect_S, marked_reach.
  change (py_range (1 + 1) (4 + 1)) with [2; 3; 4].
  rewrite find_start_pass by flat_region uniform_const.
  rewrite find_start_pass by flat_region uniform_const.
  rewrite find_start_pass by flat_region uniform_const.
  cbn [find_start bind read_local].
  change (rev (py_range 4 (4 + 1))) with [4].
  rewrite find_subborder_pass by flat_region uniform_const.
  reflexivity.
Qed.

(** On a later side that is out of reach, [start] still holds the value an
    earlier side left: both ranges are empty and the border is 0. *)
Lemma detect_out_of_reach (fuel : nat) (cfg : config) (rot : array)
    (h w s : Z) :
  reach cfg h < 1 -> 1 <= s ->
  detect (S fuel) cfg rot h w 0 (Some s) = Ok (0, Some s).
Proof.
  intros HR Hs; rewrite detect_S.
  rewrite py_range_empty by lia; cbn [find_start bind read_local].
  rewrite py_range_empty by lia; reflexivity.
Qed.

Lemma marked_side_0 (fuel : nat) :
  scan_side (S (S (S fuel))) slow_config marked_frame 0 None 0%nat
  = (Ok (1, Some 4), 0%nat).
Proof.
  unfold scan_side.
  change (reduced_view slow_config marked_frame 0 0%nat)
    with (@Ok array marked_frame, 0%nat).
  cbn [bind]; change (shape marked_frame) with (16, 2); cbv iota beta.
  now rewrite marked_first_iteration, marked_second_iteration,
    marked_third_iteration.
Qed.

Lemma marked_side_odd (fuel : nat) (side : nat) :
  side = 1%nat \/ side = 3%nat ->
  scan_side (S fuel) slow_config marked_frame side (Some 4) 0%nat
  = (Ok (0, Some 4), 0%nat).
Proof.
  intros [-> | ->]; unfold scan_side.
  - destruct (reduced_view slow_config marked_frame 1 0%nat) as [view g]
      eqn:Eview.
    assert (Eg : g = 0%nat) by (vm_compute in Eview; congruence).
    subst g; destruct view as [rot | e |];
      try (vm_compute in Eview; discriminate).
    destruct (reduced_view_spec _ _ _ _ _ _ Eview) as [Hh _].
    cbn [bind].
    change (shape rot) with (fst (shape rot), snd (shape rot));
      cbv iota beta.
    rewrite Hh, detect_out_of_reach; [reflexivity | reflexivity | lia].
  - destruct (reduced_view slow_config marked_frame 3 0%nat) as [view g]
      eqn:Eview.
    assert (Eg : g = 0%nat) by (vm_compute in Eview; congruence).
    subst g; destruct view as [rot | e |];
      try (vm_compute in Eview; discriminate).
    destruct (reduced_view_spec _ _ _ _ _ _ Eview) as [Hh _].
    cbn [bind].
    change (shape rot) with (fst (shape rot), snd (shape rot));
      cbv iota beta.
    rewrite Hh, detect_out_of_reach; [reflexivity | reflexivity | lia].
Qed.

Lemma marked_side_2 (fuel : nat) :
  scan_side (S fuel) slow_config marked_frame 2 (Some 4) 0%nat
  = (Ok (0, Some 4), 0%nat).
Proof.
  unfold scan_side.
  change (reduced_view slow_config marked_frame 2 0%nat)
    with (@Ok array (map (@rev Z) (rev marked_frame)), 0%nat).
  cbn [bind].
  change (shape (map (@rev Z) (rev marked_frame))) with (16, 2);
    cbv iota beta.
  rewrite detect_S, marked_reach.
  change (py_range (0 + 1) (4 + 1)) with [1; 2; 3; 4].
  rewrite find_start_pass by flat_region uniform_const.
  rewrite find_start_pass by flat_region uniform_const.
  rewrite find_start_pass by flat_region uniform_const.
  rewrite find_start_pass by flat_region uniform_const.
  cbn [find_start bind read_local].
  change (rev (py_range 4 (4 + 1))) with [4].
  rewrite find_subborder_pass by flat_region uniform_const.
  reflexivity.
Qed.

(** ** The search on [wide_frame], with the default threshold *)

Lemma ln_below (x : R) : (0 < x)%R -> (ln (1 + x) < x)%R.
Proof.
  intros Hx; rewrite <- (ln_exp x) at 2.
  apply ln_increasing; [lra | apply exp_ineq1; lra].
Qed.

(** The term of a value whose probability is [1 / 2 ^ k]. *)
Lemma shannon_term_dyadic (signal : list Z) (v : Z) (k : nat) :
  In v signal ->
  length signal = (count_occ Z.eq_dec signal v * 2 ^ k)%nat ->
  shannon_term signal v = (INR k / 2 ^ k)%R.
Proof.
  intros Hv Hlen; unfold shannon_term, probability.
  assert (Hc : (0 < INR (count_occ Z.eq_dec signal v))%R)
    by (apply lt_0_INR; now apply count_occ_In).
  assert (Hpow : (0 < 2 ^ k)%R) by (apply pow_lt; lra).
  rewrite Hlen, mult_INR, pow_INR.
  change (INR 2) with 2%R.
  replace (INR (count_occ Z.eq_dec signal v)
           / (INR (count_occ Z.eq_dec signal v) * 2 ^ k))%R
    with (1 / 2 ^ k)%R by (field; lra).
  replace (1 / (1 / 2 ^ k))%R with (2 ^ k)%R by (field; lra).
  rewrite ln_pow by lra.
  pose proof ln_2_pos.
  field; lra.
Qed.

Lemma wide_upper :
  (0 < shannon_entropy (region wide_frame 4 0 4) < 3 / 8)%R.
Proof.
  split; [marked_region shannon_positive |].
  unfold shannon_entropy.
  change (nodup Z.eq_dec (region wide_frame 4 0 4)) with [1; 0].
  cbn [map Rsum fold_right].
  rewrite (shannon_term_dyadic _ 1 4);
    [| vm_compute; repeat (first [left; reflexivity | right]) | reflexivity].
  unfold shannon_term, probability.
  change (count_occ Z.eq_dec (region wide_frame 4 0 4) 0) with 15%nat.
  change (length (region wide_frame 4 0 4)) with 16%nat.
  rewrite !INR_IZR_INZ; cbn [Z.of_nat Pos.of_succ_nat Pos.succ].
  replace (1 / (15 / 16))%R with (1 + 1 / 15)%R by lra.
  assert (Hln : (ln (1 + 1 / 15) < 1 / 15)%R) by (apply ln_below; lra).
  assert (Hpos : (0 < ln (1 + 1 / 15))%R)
    by (rewrite <- ln_1; apply ln_increasing; lra).
  pose proof ln_lt_2 as H2.
  assert (Hq : (ln (1 + 1 / 15) / ln 2 < 2 / 15)%R).
  { apply Rmult_lt_reg_r with (ln 2); [lra |].
    unfold Rdiv at 1; rewrite Rmult_assoc, Rinv_l by lra.
    nra. }
  simpl; lra.
Qed.

Lemma wide_lower :
  (1 <= shannon_entropy (region wide_frame 4 4 (2 * 4 - 0)))%R.
Proof.
  unfold shannon_entropy.
  change (nodup Z.eq_dec (region wide_frame 4 4 (2 * 4 - 0)))
    with [0; 1; 2; 3; 4].
  cbn [map Rsum fold_right].
  assert (H0 : (0 <= shannon_term (region wide_frame 4 4 (2 * 4 - 0)) 0)%R)
    by (apply shannon_term_nonneg; now left).
  set (zeros := shannon_term (region wide_frame 4 4 (2 * 4 - 0)) 0) in *.
  rewrite (shannon_term_dyadic _ 1 4);
    [| vm_compute; repeat (first [left; reflexivity | right]) | reflexivity].
  rewrite (shannon_term_dyadic _ 2 4);
    [| vm_compute; repeat (first [left; reflexivity | right]) | reflexivity].
  rewrite (shannon_term_dyadic _ 3 4);
    [| vm_compute; repeat (first [left; reflexivity | right]) | reflexivity].
  rewrite (shannon_term_dyadic _ 4 4);
    [| vm_compute; repeat (first [left; reflexivity | right]) | reflexivity].
  simpl; lra.
Qed.

Lemma wide_reach : reach patient_config 16 = 4.
Proof. reflexivity. Qed.

Lemma wide_first_iteration (fuel : nat) :
  detect (S fuel) patient_config wide_frame 16 4 0 None
  = detect fuel patient_config wide_frame 16 4 4 (Some 1).
Proof.
  rewrite detect_S, wide_reach.
  change (py_range (0 + 1) (4 + 1)) with [1; 2; 3; 4].
  rewrite find_start_break by marked_region shannon_positive.
  cbn [bind read_local].
  change (rev (py_range 1 (4 + 1))) with [4; 3; 2; 1].
  change (threshold patient_config) with (1 / 2)%R.
  pose proof wide_upper as [Hupper0 Hupper].
  pose proof wide_lower as Hlower.
  assert (Hdiff : (shannon_entropy (region wide_frame 4 0 4)
                   / shannon_entropy (region wide_frame 4 4 (2 * 4 - 0))
                   < 1 / 2)%R).
  { apply Rmult_lt_reg_r
      with (shannon_entropy (region wide_frame 4 4 (2 * 4 - 0))); [lra |].
    unfold Rdiv at 1; rewrite Rmult_assoc, Rinv_l by lra.
    lra. }
  rewrite find_subborder_take; [| lra | exact Hdiff | exact Hdiff].
  rewrite find_subborder_pass by flat_region uniform_const.
  rewrite find_subborder_pass by flat_region uniform_const.
  rewrite find_subborder_pass by flat_region uniform_const.
  reflexivity.
Qed.

Lemma wide_second_iteration (fuel : nat) :
  detect (S fuel) patient_config wide_frame 16 4 4 (Some 1)
  = detect fuel patient_config wide_frame 16 4 1 (Some 1).
Proof.
  rewrite detect_S, wide_reach.
  change (py_range (4 + 1) (4 + 1)) with (@nil Z).
  cbn [find_start bind read_local].
  change (rev (py_range 1 (4 + 1))) with [4; 3; 2; 1].
  change (threshold patient_config) with (1 / 2)%R.
  rewrite find_subborder_pass by flat_region uniform_const.
  rewrite find_subborder_pass by flat_region uniform_const.
  rewrite find_subborder_pass by flat_region uniform_const.
  assert (Hupper : shannon_entropy (region wide_frame 4 4 1) = 0%R)
    by (apply shannon_uniform; flat_region uniform_const).
  assert (Hlower : (0 < shannon_entropy
                         (region wide_frame 4 1 (2 * 1 - 4)))%R)
    by marked_region shannon_positive.
  assert (Hdiff : (shannon_entropy (region wide_frame 4 4 1)
                   / shannon_entropy (region wide_frame 4 1 (2 * 1 - 4))
                   = 0)%R)
    by (rewrite Hupper; apply Rmult_0_l).
  rewrite find_subborder_take; [| exact Hlower
                                 | rewrite Hdiff; lra | rewrite Hdiff; lra].
  reflexivity.
Qed.

Lemma wide_third_iteration (fuel : nat) :
  detect (S fuel) patient_config wide_frame 16 4 1 (Some 1)
  = Ok (1, Some 4).
Proof.
  rewrite detect_S, wide_reach.
  change (py_range (1 + 1) (4 + 1)) with [2; 3; 4].
  rewrite find_start_pass by flat_region uniform_const.
  rewrite find_start_pass by flat_region uniform_const.
  rewrite find_start_pass by flat_region uniform_const.
  cbn [find_start bind read_local].
  change (rev (py_range 4 (4 + 1))) with [4].
  rewrite find_subborder_pass by flat_region uniform_const.
  reflexivity.
Qed.

(** With the default threshold and [fast] off, side 0 of [wide_frame]
    ends at border 1, after the border has been at 4. *)
Lemma wide_side_0 (fuel : nat) :
  scan_side (S (S (S fuel))) patient_config wide_frame 0 None 0%nat
  = (Ok (1, Some 4), 0%nat).
Proof.
  unfold scan_side.
  change (reduced_view patient_config wide_frame 0 0%nat)
    with (@Ok array wide_frame, 0%nat).
  cbn [bind]; change (shape wide_frame) with (16, 4); cbv iota beta.
  now rewrite wide_first_iteration, wide_second_iteration,
    wide_third_iteration.
Qed.

(** C7, at a failing input: [wide_frame] with the default options and [fast]
    off, side 0, where [round(indent * h) = 4].  The first iteration moves
    the border from 0 to 4; the second, whose range of [start] is empty,
    moves it from 4 back to 1; the third stops, and the border of the side
    is 1.  The search ends, but the border does not grow at every
    iteration.  The same happens on [marked_frame] with threshold 2.0, whose
    borders are [1, 0, 0, 0]. *)
Theorem border_moves_back :
  reach patient_config (side_height wide_frame 0) = 4
  /\ (forall fuel : nat,
        detect (S fuel) patient_config wide_frame 16 4 0 None
        = detect fuel patient_config wide_frame 16 4 4 (Some 1))
  /\ (forall fuel : nat,
        detect (S fuel) patient_config wide_frame 16 4 4 (Some 1)
        = detect fuel patient_config wide_frame 16 4 1 (Some 1))
  /\ (forall fuel : nat,
        detect (S fuel) patient_config wide_frame 16 4 1 (Some 1)
        = Ok (1, Some 4))
  /\ (forall fuel : nat,
        scan_side (S (S (S fuel))) patient_config wide_frame 0 None 0%nat
        = (Ok (1, Some 4), 0%nat))
  /\ (forall fuel : nat,
        scan_frame (S (S (S fuel))) slow_config marked_frame 0%nat
        = (Ok [1; 0; 0; 0], 0%nat)).
Proof.
  split; [reflexivity |].
  split; [exact wide_first_iteration |].
  split; [exact wide_second_iteration |].
  split; [exact wide_third_iteration |].
  split; [exact wide_side_0 |].
  intros fuel; unfold scan_frame.
  rewrite scan_sides_cons, marked_side_0.
  rewrite scan_sides_cons, marked_side_odd by now left.
  rewrite scan_sides_cons, marked_side_2.
  rewrite scan_sides_cons, marked_side_odd by now right.
  reflexivity.
Qed.

(** ** The random subset selector *)

Lemma rotate_shuffle_fair : fair_shuffle nat.
Proof.
  intros g l; cbn [shuffle rotating_source rotate_shuffle fst].
  set (k := Nat.modulo g (Nat.max 1 (length l))).
  rewrite <- (firstn_skipn k l) at 1.
  apply Permutation_app_comm.
Qed.

Lemma shuffled_range {rng : Type} `{RandomSource rng}
    (count : Z) (g g' : rng) (shuffled : list Z) :
  fair_shuffle rng ->
  shuffle g (py_range 0 count) = (shuffled, g') ->
  Permutation (py_range 0 count) shuffled.
Proof.
  intros Hfair E; specialize (Hfair g (py_range 0 count)).
  now rewrite E in Hfair.
Qed.

(** C6, as the code has it: for every [count >= 0], with [limit] unset the
    selector returns every index of [0, count) exactly once; with [limit]
    set to a non-negative integer it returns indices of [0, count), without
    repeats, exactly [min(limit, count)] of them; with [limit = 0] it
    returns the empty set. *)
Theorem randoms_subset {rng : Type} `{RandomSource rng}
    (count : Z) (g : rng) :
  fair_shuffle rng ->
  0 <= count ->
  (NoDup (fst (randoms count None g))
   /\ forall i, In i (fst (randoms count None g)) <-> 0 <= i < count)
  /\ (forall limit,
        0 <= limit ->
        NoDup (fst (randoms count (Some limit) g))
        /\ (forall i, In i (fst (randoms count (Some limit) g)) ->
                      0 <= i < count)
        /\ len (fst (randoms count (Some limit) g)) = Z.min limit count)
  /\ fst (randoms count (Some 0) g) = [].
Proof.
  intros Hfair Hcount; unfold randoms.
  destruct (shuffle g (py_range 0 count)) as [shuffled g'] eqn:E.
  pose proof (shuffled_range count g g' shuffled Hfair E) as Hperm.
  cbn [fst]; split; [| split].
  - split; [apply py_set_NoDup |].
    intros i; rewrite In_py_set; apply In_py_range.
  - intros limit Hlimit.
    assert (Hnd : NoDup (py_slice shuffled 0 limit)).
    { apply py_slice_NoDup.
      apply (Permutation_NoDup Hperm), py_range_NoDup. }
    split; [apply py_set_NoDup |]; split.
    + intros i Hi; apply In_py_set, py_slice_incl in Hi.
      apply (In_py_range 0 count).
      eapply Permutation_in; [apply Permutation_sym; exact Hperm | exact Hi].
    + unfold len; rewrite (py_set_length _ Hnd).
      rewrite py_slice_prefix, length_firstn by exact Hlimit.
      rewrite <- (Permutation_length Hperm), py_range_length; lia.
  - rewrite py_slice_prefix by lia; reflexivity.
Qed.

Lemma randoms_subset_witness :
  (NoDup (fst (randoms 5 None 0%nat))
   /\ forall i, In i (fst (randoms 5 None 0%nat)) <-> 0 <= i < 5)
  /\ (forall limit,
        0 <= limit ->
        NoDup (fst (randoms 5 (Some limit) 0%nat))
        /\ (forall i, In i (fst (randoms 5 (Some limit) 0%nat)) ->
                      0 <= i < 5)
        /\ len (fst (randoms 5 (Some limit) 0%nat)) = Z.min limit 5)
  /\ fst (randoms 5 (Some 0) 0%nat) = [].
Proof.
  apply (randoms_subset 5 0%nat rotate_shuffle_fair); lia.
Defined.

(** C6 as stated fails for a negative [limit]: [randoms[:-1]] drops the
    last element, so of 3 indices 2 are returned, whatever the shuffle, and
    not [min(-1, 3)]. *)
Lemma randoms_negative_limit :
  (forall (rng : Type) (source : RandomSource rng) (g : rng),
     fair_shuffle rng -> len (fst (randoms 3 (Some (-1)) g)) = 2)
  /\ fst (randoms 3 (Some (-1)) 0%nat) = [0; 1]
  /\ Z.min (-1) 3 = -1.
Proof.
  split; [| split; reflexivity].
  intros rng source g Hfair; unfold randoms.
  destruct (shuffle g (py_range 0 3)) as [shuffled g'] eqn:E.
  pose proof (shuffled_range 3 g g' shuffled Hfair E) as Hperm.
  cbn [fst]; unfold len.
  rewrite py_set_length
    by (apply py_slice_NoDup, (Permutation_NoDup Hperm), py_range_NoDup).
  pose proof (Permutation_length Hperm) as Hlen.
  rewrite py_range_length in Hlen.
  unfold py_slice, len; rewrite <- Hlen.
  rewrite length_firstn, length_skipn, <- Hlen; reflexivity.
Qed.

(** ** The search on [striped_frame], one column for each side *)

Lemma capped_reach_8 : reach capped_config 8 = 2.
Proof. reflexivity. Qed.

(** A view of one column whose pixels are all 0 has border 0. *)
Lemma capped_flat (rot : array) (h : Z) (start : option Z) :
  all_pixels (eq 0) rot ->
  1 <= reach capped_config h ->
  exists s, detect 1 capped_config rot h 1 0 start = Ok (0, Some s).
Proof.
  intros Hflat HR.
  apply (detect_flat 0 0 capped_config rot h 1 start Hflat); now left.
Qed.

(** The middle column of [striped_frame]: [start] runs to 2, and the rows
    2 and 3 below it hold two values, over two rows of one value: the
    ratio is 0 and the border is 2. *)
Lemma striped_middle_column :
  detect 1 capped_config [[0]; [0]; [0]; [1]; [0]; [0]; [0]; [0]] 8 1 0 None
  = Ok (2, Some 2).
Proof.
  set (rot := [[0]; [0]; [0]; [1]; [0]; [0]; [0]; [0]]).
  rewrite detect_S, capped_reach_8.
  change (py_range (0 + 1) (2 + 1)) with [1; 2].
  rewrite find_start_pass by (subst rot; flat_region uniform_const).
  rewrite find_start_pass by (subst rot; flat_region uniform_const).
  cbn [find_start bind read_local].
  change (rev (py_range 2 (2 + 1))) with [2].
  change (threshold capped_config) with (1 / 2)%R.
  assert (Hupper : shannon_entropy (region rot 1 0 2) = 0%R)
    by (apply shannon_uniform; subst rot; flat_region uniform_const).
  assert (Hlower : (0 < shannon_entropy (region rot 1 2 (2 * 2 - 0)))%R)
    by (subst rot; marked_region shannon_positive).
  assert (Hdiff : (shannon_entropy (region rot 1 0 2)
                   / shannon_entropy (region rot 1 2 (2 * 2 - 0)) = 0)%R)
    by (rewrite Hupper; apply Rmult_0_l).
  rewrite find_subborder_take; [| exact Hlower
                                 | rewrite Hdiff; lra | rewrite Hdiff; lra].
  reflexivity.
Qed.

(** The views of the four sides, as the rotating source selects them from
    the states 0 and 4. *)
Lemma striped_views :
  reduced_view capped_config striped_frame 0 0%nat
  = (Ok [[0]; [0]; [0]; [0]; [0]; [0]; [0]; [0]], 1%nat)
  /\ reduced_view capped_config striped_frame 1 1%nat
     = (Ok [[0]; [0]; [0]], 2%nat)
  /\ reduced_view capped_config striped_frame 2 2%nat
     = (Ok [[0]; [0]; [0]; [0]; [0]; [0]; [0]; [0]], 3%nat)
  /\ reduced_view capped_config striped_frame 3 3%nat
     = (Ok [[0]; [0]; [0]], 4%nat)
  /\ reduced_view capped_config striped_frame 0 4%nat
     = (Ok [[0]; [0]; [0]; [1]; [0]; [0]; [0]; [0]], 5%nat)
  /\ reduced_view capped_config striped_frame 1 5%nat
     = (Ok [[0]; [0]; [0]], 6%nat)
  /\ reduced_view capped_config striped_frame 2 6%nat
     = (Ok [[0]; [0]; [0]; [0]; [0]; [0]; [0]; [0]], 7%nat)
  /\ reduced_view capped_config striped_frame 3 7%nat
     = (Ok [[0]; [0]; [0]], 8%nat).
Proof. repeat split; vm_compute; reflexivity. Qed.

Lemma striped_flat_side (fuel : nat) (side : nat) (g g' : nat)
    (rot : array) (start : option Z) :
  reduced_view capped_config striped_frame side g = (Ok rot, g') ->
  all_pixels (eq 0) rot ->
  snd (shape rot) = 1 ->
  1 <= reach capped_config (fst (shape rot)) ->
  exists s,
    scan_side 1 capped_config striped_frame side start g
    = (Ok (0, Some s), g').
Proof.
  intros Eview Hflat Hw HR; unfold scan_side; rewrite Eview; cbn [bind].
  change (shape rot) with (fst (shape rot), snd (shape rot));
    cbv iota beta; rewrite Hw.
  destruct (capped_flat rot (fst (shape rot)) start Hflat HR) as [s ->].
  now exists s.
Qed.

Lemma striped_first_scan :
  scan_frame 1 capped_config striped_frame 0%nat
  = (Ok [0; 0; 0; 0], 4%nat).
Proof.
  destruct striped_views as (V0 & V1 & V2 & V3 & _).
  unfold scan_frame; rewrite scan_sides_cons.
  destruct (striped_flat_side 1 0 0 1 _ None V0) as [s0 ->];
    [repeat constructor | reflexivity | vm_compute; discriminate |].
  rewrite scan_sides_cons.
  destruct (striped_flat_side 1 1 1 2 _ (Some s0) V1) as [s1 ->];
    [repeat constructor | reflexivity | vm_compute; discriminate |].
  rewrite scan_sides_cons.
  destruct (striped_flat_side 1 2 2 3 _ (Some s1) V2) as [s2 ->];
    [repeat constructor | reflexivity | vm_compute; discriminate |].
  rewrite scan_sides_cons.
  destruct (striped_flat_side 1 3 3 4 _ (Some s2) V3) as [s3 ->];
    [repeat constructor | reflexivity | vm_compute; discriminate |].
  reflexivity.
Qed.

Lemma striped_second_scan :
  scan_frame 1 capped_config striped_frame 4%nat
  = (Ok [2; 0; 0; 0], 8%nat).
Proof.
  destruct striped_views as (_ & _ & _ & _ & V0 & V1 & V2 & V3).
  unfold scan_frame; rewrite scan_sides_cons.
  unfold scan_side at 1; rewrite V0; cbn [bind].
  change (shape [[0]; [0]; [0]; [1]; [0]; [0]; [0]; [0]]) with (8, 1);
    cbv iota beta.
  rewrite striped_middle_column.
  rewrite scan_sides_cons.
  destruct (striped_flat_side 1 1 5 6 _ (Some 2) V1) as [s1 ->];
    [repeat constructor | reflexivity | vm_compute; discriminate |].
  rewrite scan_sides_cons.
  destruct (striped_flat_side 1 2 6 7 _ (Some s1) V2) as [s2 ->];
    [repeat constructor | reflexivity | vm_compute; discriminate |].
  rewrite scan_sides_cons.
  destruct (striped_flat_side 1 3 7 8 _ (Some s2) V3) as [s3 ->];
    [repeat constructor | reflexivity | vm_compute; discriminate |].
  reflexivity.
Qed.

(** ** A threshold that is not positive *)

Lemma find_subborder_nonpositive (rot : array) (w border : Z) (thr : R)
    (centers : list Z) (subborder : Z) (delta : R) :
  (thr <= 0)%R ->
  find_subborder rot w border thr centers subborder delta
  = Ok (subborder, delta).
Proof.
  intros Hthr; induction centers as [| c centers IH]; [reflexivity |].
  cbn [find_subborder]; rewrite !entropy_value; cbn [bind].
  set (upper := shannon_entropy (region rot w border c)).
  set (lower := shannon_entropy (region rot w c (2 * c - border))).
  pose proof (shannon_nonneg (region rot w border c)) as Hupper.
  pose proof (shannon_nonneg (region rot w c (2 * c - border))) as Hlower.
  fold upper in Hupper; fold lower in Hlower.
  unfold Rneqb; destruct (Req_dec_T lower 0) as [E | Hne].
  - rewrite Rltb_irrefl; exact IH.
  - assert (Hdiff : (0 <= upper / lower)%R).
    { apply Rmult_le_pos; [exact Hupper |].
      left; apply Rinv_0_lt_compat; lra. }
    unfold Rltb at 2.
    destruct (Rlt_dec (upper / lower) thr) as [Hlt | _]; [lra |].
    rewrite andb_false_r; exact IH.
Qed.

(** With a threshold that is not positive one iteration settles a side: no
    center is taken, and the border stays where it is. *)
Lemma detect_nonpositive (fuel : nat) (cfg : config) (rot : array)
    (h w border : Z) (start : option Z) :
  (threshold cfg <= 0)%R ->
  detect (S fuel) cfg rot h w border start
  = (start <- find_start rot w border
                (py_range (border + 1) (reach cfg h + 1)) start ;;
     s <- read_local start ;;
     Ok (border, start)).
Proof.
  intros Hthr; rewrite detect_S.
  destruct (find_start rot w border _ start) as [st1 | e |]; cbn [bind];
    try reflexivity.
  destruct (read_local st1) as [s | e |]; cbn [bind]; try reflexivity.
  rewrite find_subborder_nonpositive by exact Hthr; reflexivity.
Qed.

(** Over a range that is not empty the loop over [start] binds the variable
    afresh: what it held before does not matter. *)
Lemma find_start_fresh (rot : array) (w border : Z) (starts : list Z)
    (start1 start2 : option Z) :
  starts <> [] ->
  find_start rot w border starts start1
  = find_start rot w border starts start2.
Proof. destruct starts as [| s starts]; [contradiction | reflexivity]. Qed.

(** A search that returns leaves [start] bound. *)
Lemma detect_binds_start (fuel : nat) (cfg : config) (rot : array)
    (h w : Z) :
  forall (border : Z) (start start' : option Z) (b : Z),
    detect fuel cfg rot h w border start = Ok (b, start') ->
    exists s, start' = Some s.
Proof.
  induction fuel as [| fuel IH]; intros border start start' b;
    [discriminate |].
  rewrite detect_S.
  destruct (find_start rot w border _ start) as [st1 | e |]; cbn [bind];
    try discriminate.
  destruct st1 as [s |]; cbn [read_local bind]; try discriminate.
  destruct (find_subborder rot w border (threshold cfg) _ 0 (threshold cfg))
    as [[sb d] | e |]; cbn [bind]; try discriminate.
  destruct ((sb =? 0) || (border =? sb));
    [intros E; inversion E; now exists s |].
  destruct (fast cfg); [intros E; inversion E; now exists s |].
  apply IH.
Qed.

(** Where the search of a side returns with some threshold, it returns with
    a threshold that is not positive, after one iteration and with border
    0: whether [start] is bound when it is read does not depend on the
    threshold. *)
Lemma detect_any_threshold (fuel budget : nat) (cfg : config) (t : R)
    (rot : array) (h w : Z) (start_t start start_t' : option Z) (b : Z) :
  (threshold cfg <= 0)%R ->
  (start = None -> start_t = None) ->
  detect budget (with_threshold cfg t) rot h w 0 start_t
  = Ok (b, start_t') ->
  exists s, detect (S fuel) cfg rot h w 0 start = Ok (0, Some s).
Proof.
  intros Hthr Hrel Edet.
  rewrite detect_nonpositive by exact Hthr.
  destruct budget as [| budget]; [discriminate |].
  rewrite detect_S in Edet.
  change (reach (with_threshold cfg t) h) with (reach cfg h) in Edet.
  destruct (py_range (0 + 1) (reach cfg h + 1)) as [| s0 starts].
  - cbn [find_start bind] in *.
    destruct start_t as [s |]; [| discriminate].
    destruct start as [s1 |]; [| specialize (Hrel eq_refl); discriminate].
    now exists s1.
  - rewrite (find_start_fresh rot w 0 (s0 :: starts) start start_t)
      by discriminate.
    destruct (find_start rot w 0 (s0 :: starts) start_t) as [st1 | e |];
      cbn [bind] in *; try discriminate.
    destruct st1 as [s |]; cbn [read_local bind] in *;
      [now exists s | discriminate].
Qed.

Lemma scan_side_any_threshold {rng : Type} `{RandomSource rng}
    (fuel budget : nat) (cfg : config) (t : R) (arr : array) (side : nat)
    (start_t start start_t' : option Z) (g g' : rng) (b : Z) :
  (threshold cfg <= 0)%R ->
  (start = None -> start_t = None) ->
  scan_side budget (with_threshold cfg t) arr side start_t g
  = (Ok (b, start_t'), g') ->
  (exists s, scan_side (S fuel) cfg arr side start g = (Ok (0, Some s), g'))
  /\ exists s, start_t' = Some s.
Proof.
  intros Hthr Hrel; unfold scan_side.
  change (reduced_view (with_threshold cfg t) arr side g)
    with (reduced_view cfg arr side g).
  destruct (reduced_view cfg arr side g) as [[rot | e |] g1]; cbn [bind];
    try discriminate.
  destruct (shape rot) as [h w].
  intros E; inversion E as [[Edet Eg]]; split.
  - destruct (detect_any_threshold fuel budget cfg t rot h w start_t start
                start_t' b Hthr Hrel Edet) as [s ->].
    now exists s.
  - exact (detect_binds_start _ _ _ _ _ _ _ _ _ Edet).
Qed.

Lemma scan_sides_any_threshold {rng : Type} `{RandomSource rng}
    (fuel budget : nat) (cfg : config) (t : R) (arr : array)
    (sides : list nat) :
  (threshold cfg <= 0)%R ->
  forall (start_t start : option Z) (g g' : rng) (borders : list Z),
    (start = None -> start_t = None) ->
    scan_sides budget (with_threshold cfg t) arr sides start_t g
    = (Ok borders, g') ->
    scan_sides (S fuel) cfg arr sides start g
    = (Ok (repeat 0 (length sides)), g').
Proof.
  intros Hthr; induction sides as [| side sides IH];
    intros start_t start g g' borders Hrel.
  - cbn [scan_sides]; intros E; inversion E; reflexivity.
  - rewrite (scan_sides_cons budget), (scan_sides_cons (S fuel)).
    destruct (scan_side budget (with_threshold cfg t) arr side start_t g)
      as [[[b st_t] | e |] g1] eqn:Eside; try discriminate.
    destruct (scan_side_any_threshold fuel budget cfg t arr side start_t
                start st_t g g1 b Hthr Hrel Eside) as [[s ->] [s' ->]].
    destruct (scan_sides budget (with_threshold cfg t) arr sides (Some s')
                g1) as [rest g2] eqn:Erest.
    destruct rest as [bs | e |]; cbn [bind]; try discriminate.
    intros E; inversion E; subst.
    rewrite (IH (Some s') (Some s) g1 g' bs); [reflexivity | | exact Erest].
    discriminate.
Qed.

(** Where the scan returns with some threshold, it returns with a threshold
    that is not positive, with every border 0 and the generator in the same
    state. *)
Lemma scan_any_threshold {rng : Type} `{RandomSource rng}
    (fuel budget : nat) (cfg : config) (t : R) (frames : list array) :
  (threshold cfg <= 0)%R ->
  forall (g g' : rng) (all : list (list Z)),
    scan budget (with_threshold cfg t) frames g = (Ok all, g') ->
    scan (S fuel) cfg frames g
    = (Ok (repeat [0; 0; 0; 0] (length frames)), g').
Proof.
  intros Hthr; induction frames as [| arr frames IH]; intros g g' all.
  - cbn [scan]; intros E; inversion E; reflexivity.
  - cbn [scan]; unfold scan_frame at 1 2.
    destruct (scan_sides budget (with_threshold cfg t) arr _ None g)
      as [[borders | e |] g1] eqn:Eframe; try discriminate.
    rewrite (scan_sides_any_threshold fuel budget cfg t arr _ Hthr
               None None g g1 borders (fun E => E) Eframe).
    destruct (scan budget (with_threshold cfg t) frames g1) as [rest g2]
      eqn:Erest.
    destruct rest as [bs | e |]; cbn [bind]; try discriminate.
    intros E; inversion E; subst.
    rewrite (IH g1 g' bs Erest); reflexivity.
Qed.

(** ** Options that only show through [paginate] and [round(indent * h)] *)

Lemma paginate_of_one (stripes : Q) : stripes == 1 -> paginate_of stripes = 1.
Proof.
  intros E; unfold paginate_of.
  destruct (Qlt_le_dec 0 stripes); [| reflexivity].
  destruct (Qlt_le_dec stripes 1) as [Hlt | _]; [| reflexivity].
  rewrite E in Hlt; now apply Qlt_irrefl in Hlt.
Qed.

Lemma paginate_of_nonpositive (s : Q) : (s <= 0)%Q -> paginate_of s = 1.
Proof.
  intros Hs; unfold paginate_of.
  destruct (Qlt_le_dec 0 s) as [Hlt |]; [| reflexivity].
  exfalso; apply (Qlt_irrefl 0).
  eapply Qlt_le_trans; eassumption.
Qed.

Lemma detect_same_options (fuel : nat) (cfg1 cfg2 : config) (rot : array)
    (h w : Z) :
  indent cfg1 = indent cfg2 ->
  threshold cfg1 = threshold cfg2 ->
  fast cfg1 = fast cfg2 ->
  forall (border : Z) (start : option Z),
    detect fuel cfg1 rot h w border start
    = detect fuel cfg2 rot h w border start.
Proof.
  intros Hi Ht Hf; induction fuel as [| fuel IH]; intros border start;
    [reflexivity |].
  rewrite !detect_S; unfold reach; rewrite Hi, Ht, Hf.
  destruct (find_start rot w border _ start) as [st1 | e |]; cbn [bind];
    try reflexivity.
  destruct (read_local st1) as [s | e |]; cbn [bind]; try reflexivity.
  destruct (find_subborder rot w border (threshold cfg2) _ 0
              (threshold cfg2)) as [[sb d] | e |]; cbn [bind];
    try reflexivity.
  destruct ((sb =? 0) || (border =? sb)); [reflexivity |].
  destruct (fast cfg2); [reflexivity | apply IH].
Qed.

Lemma scan_sides_same_options {rng : Type} `{RandomSource rng}
    (fuel : nat) (cfg1 cfg2 : config) (arr : array) (sides : list nat) :
  indent cfg1 = indent cfg2 ->
  threshold cfg1 = threshold cfg2 ->
  fast cfg1 = fast cfg2 ->
  max_stripes cfg1 = max_stripes cfg2 ->
  paginate_of (stripes cfg1) = paginate_of (stripes cfg2) ->
  forall (start : option Z) (g : rng),
    scan_sides fuel cfg1 arr sides start g
    = scan_sides fuel cfg2 arr sides start g.
Proof.
  intros Hi Ht Hf Hm Hp; induction sides as [| side sides IH];
    intros start g; [reflexivity |].
  rewrite !scan_sides_cons.
  assert (Eside : scan_side fuel cfg1 arr side start g
                  = scan_side fuel cfg2 arr side start g).
  { unfold scan_side, reduced_view; rewrite Hm, Hp.
    destruct (shape (rot90 side arr)) as [h w].
    destruct (randoms_paginate w _ _ g) as [cols g1].
    destruct (hstack _) as [rot | e |]; cbn [bind]; try reflexivity.
    destruct (shape rot) as [h' w'].
    now rewrite (detect_same_options fuel cfg1 cfg2). }
  rewrite Eside.
  destruct (scan_side fuel cfg2 arr side start g) as [[[b st] | e |] g1];
    try reflexivity.
  now rewrite IH.
Qed.

Lemma scan_same_options {rng : Type} `{RandomSource rng}
    (fuel : nat) (cfg1 cfg2 : config) (frames : list array) :
  indent cfg1 = indent cfg2 ->
  threshold cfg1 = threshold cfg2 ->
  fast cfg1 = fast cfg2 ->
  max_stripes cfg1 = max_stripes cfg2 ->
  paginate_of (stripes cfg1) = paginate_of (stripes cfg2) ->
  forall g : rng, scan fuel cfg1 frames g = scan fuel cfg2 frames g.
Proof.
  intros Hi Ht Hf Hm Hp; induction frames as [| arr frames IH]; intros g;
    [reflexivity |].
  cbn [scan]; unfold scan_frame.
  rewrite (scan_sides_same_options fuel cfg1 cfg2 arr _ Hi Ht Hf Hm Hp).
  destruct (scan_sides fuel cfg2 arr _ None g) as [[borders | e |] g1];
    try reflexivity.
  now rewrite IH.
Qed.

(** ** Where an exception of [scan] comes from *)

Lemma scan_app {rng : Type} `{RandomSource rng}
    (fuel : nat) (cfg : config) (frames1 frames2 : list array) (g : rng) :
  scan fuel cfg (frames1 ++ frames2) g
  = match scan fuel cfg frames1 g with
    | (Ok all1, g1) =>
        let (rest, g2) := scan fuel cfg frames2 g1 in
        (all2 <- rest ;; Ok (all1 ++ all2), g2)
    | (Raise e, g1) => (Raise e, g1)
    | (Diverge, g1) => (Diverge, g1)
    end.
Proof.
  revert g; induction frames1 as [| arr frames1 IH]; intros g.
  - cbn [app scan].
    destruct (scan fuel cfg frames2 g) as [[all2 | e |] g2]; reflexivity.
  - cbn [app scan].
    destruct (scan_frame fuel cfg arr g) as [[borders | e |] g1];
      try reflexivity.
    rewrite IH.
    destruct (scan fuel cfg frames1 g1) as [[all1 | e |] g2];
      cbn [bind]; try reflexivity.
    destruct (scan fuel cfg frames2 g2) as [[all2 | e |] g3]; reflexivity.
Qed.

Lemma scan_raises_in_frame {rng : Type} `{RandomSource rng}
    (fuel : nat) (cfg : config) (frames : list array) :
  forall (g g' : rng) (e : exn),
    scan fuel cfg frames g = (Raise e, g') ->
    exists before arr after all g0,
      frames = before ++ arr :: after
      /\ scan fuel cfg before g = (Ok all, g0)
      /\ scan_frame fuel cfg arr g0 = (Raise e, g').
Proof.
  induction frames as [| arr frames IH]; intros g g' e; [discriminate |].
  cbn [scan].
  destruct (scan_frame fuel cfg arr g) as [[borders | e' |] g1] eqn:Eframe.
  - destruct (scan fuel cfg frames g1) as [[all | e' |] g2] eqn:Erest;
      cbn [bind]; try discriminate.
    intros E; inversion E; subst.
    destruct (IH _ _ _ Erest)
      as (before & a & after & all & g0 & -> & Hbefore & Ha).
    exists (arr :: before), a, after, (borders :: all), g0.
    split; [reflexivity |]; split; [| exact Ha].
    cbn [scan]; rewrite Eframe, Hbefore; reflexivity.
  - intros E; inversion E; subst.
    exists [], arr, frames, [], g; repeat split; exact Eframe.
  - discriminate.
Qed.

Lemma scan_negative_blank :
  scan 1 negative_config [blank 7 4 4] 0%nat = (Ok [[0; 0; 0; 0]], 0%nat).
Proof.
  cbn [scan].
  rewrite scan_frame_blank; [reflexivity | lia | lia | reflexivity |].
  vm_compute; discriminate.
Qed.

(** C8, as the code has it: [scan] checks no option, and nothing is
    rejected before the frames are scanned.  Whatever the configuration, an
    exception of the call is the exception of the scan of one frame, raised
    after every frame before it was scanned.  A configuration whose
    [stripes] is not positive is scanned exactly as with [stripes = 1.0].
    With a threshold that is not positive, whenever the scan with the
    threshold replaced by another value returns, the scan returns too: one
    iteration per side is enough, every border is 0, and the randomness
    source is left in the same state. *)
Theorem scan_validates_nothing {rng : Type} `{RandomSource rng}
    (fuel : nat) (cfg : config) (frames : list array) (g : rng) :
  (forall (e : exn) (g' : rng),
      scan fuel cfg frames g = (Raise e, g') ->
      exists before arr after all g0,
        frames = before ++ arr :: after
        /\ scan fuel cfg before g = (Ok all, g0)
        /\ scan_frame fuel cfg arr g0 = (Raise e, g'))
  /\ ((stripes cfg <= 0)%Q ->
      scan fuel cfg frames g = scan fuel (with_stripes cfg 1) frames g)
  /\ ((threshold cfg <= 0)%R ->
      forall (t : R) (budget : nat) (all : list (list Z)) (g' : rng),
        scan budget (with_threshold cfg t) frames g = (Ok all, g') ->
        scan (S fuel) cfg frames g
        = (Ok (repeat [0; 0; 0; 0] (length frames)), g')).
Proof.
  split; [| split].
  - intros e g'; apply scan_raises_in_frame.
  - intros Hs; apply scan_same_options; try reflexivity.
    cbn [with_stripes stripes].
    rewrite (paginate_of_nonpositive _ Hs).
    symmetry; now apply paginate_of_one.
  - intros Hthr t budget all g'.
    now apply scan_any_threshold.
Qed.

Lemma scan_validates_nothing_witness :
  (threshold (with_threshold capped_config (-1)) <= 0)%R
  /\ scan 1 (with_threshold (with_threshold capped_config (-1)) (1 / 2))
       [striped_frame] 4%nat
     = (Ok [[2; 0; 0; 0]], 8%nat)
  /\ scan 2 (with_threshold capped_config (-1)) [striped_frame] 4%nat
     = (Ok (repeat [0; 0; 0; 0] (length [striped_frame])), 8%nat).
Proof.
  assert (Hthr : (threshold (with_threshold capped_config (-1)) <= 0)%R)
    by (cbn [threshold with_threshold]; lra).
  assert (Hscan : scan 1 (with_threshold
                            (with_threshold capped_config (-1)) (1 / 2))
                    [striped_frame] 4%nat
                  = (Ok [[2; 0; 0; 0]], 8%nat)).
  { change (with_threshold (with_threshold capped_config (-1)) (1 / 2))
      with capped_config.
    cbn [scan]; now rewrite striped_second_scan. }
  split; [exact Hthr |]; split; [exact Hscan |].
  apply (proj2 (proj2 (scan_validates_nothing 1
                         (with_threshold capped_config (-1))
                         [striped_frame] 4%nat))
           Hthr (1 / 2)%R 1%nat [[2; 0; 0; 0]] 8%nat Hscan).
Defined.

(** C8 as stated fails: the call with [threshold = -1.0] on a blank frame
    of four rows and four columns is not rejected; it returns the borders
    [(0, 0, 0, 0)]. *)
Lemma negative_threshold_accepted :
  (threshold negative_config <= 0)%R
  /\ scan 1 negative_config [blank 7 4 4] 0%nat
     = (Ok [[0; 0; 0; 0]], 0%nat).
Proof.
  split; [cbn [threshold negative_config]; lra | exact scan_negative_blank].
Qed.

(** ** Determinism *)








(** ** The constructor *)

(** The attributes of the class are private names, rewritten alike where
    the class body binds them and where the methods read them. *)
Lemma mangle_frames : mangle "ENIMDA" "__frames" = "_ENIMDA__frames"%string.
Proof. reflexivity. Qed.

(** A name with two underscores at both ends is left as it is. *)
Lemma mangle_init : mangle "ENIMDA" "__init__" = "__init__"%string.
Proof. reflexivity. Qed.

(** C10 fails on the code: no instance is ever constructed.  The call
    [__randoms(count=image.width, limit=columns)] stands in the body of the
    class, where the name is private and reads [_ENIMDA__randoms]; the
    module binds no such global.  Whatever the image, the arguments and the
    store, the constructor raises [NameError] there, before a frame is
    loaded: the store and the randomness source are left as they were.
    After any number of constructions the list of the class is still
    empty. *)
Theorem construction_raises_name_error {rng : Type} `{RandomSource rng}
    `{Pillow} (w : world) (image : pil_image)
    (size frames columns : option Z) (g : rng) :
  mangle "ENIMDA" "__randoms" = "_ENIMDA__randoms"%string
  /\ init w image size frames columns g = (Raise NameError, w, g)
  /\ frames_of class_defined new_instance = [].
Proof. repeat split. Qed.

(** * Further properties *)

(** ** The entropy estimator on every signal *)

(** X1: the entropy estimator raises nothing, on any signal: every value
    of the set is a key of the counts, no probability is 0, and no
    logarithm is taken of a number that is not positive.  Its result is
    never negative. *)
Theorem entropy_total_nonnegative (signal : list Z) :
  exists e, entropy signal = Ok e /\ (0 <= e)%R.
Proof.
  exists (shannon_entropy signal).
  split; [apply entropy_value | apply shannon_nonneg].
Qed.

(** X2: the entropy of a signal is 0 exactly when all its values are the
    same (the empty signal included); otherwise it is positive. *)
Theorem entropy_zero_iff_uniform (signal : list Z) :
  entropy signal = Ok 0%R <-> uniform signal.
Proof.
  rewrite entropy_value; split.
  - intros E x y Hx Hy.
    destruct (Z.eq_dec x y) as [Exy | Hne]; [exact Exy | exfalso].
    pose proof (shannon_positive signal x y Hx Hy Hne) as Hpos.
    inversion E as [E0]; rewrite E0 in Hpos; lra.
  - intros Hu; f_equal; now apply shannon_uniform.
Qed.

(** ** Edge cases of the random subset selector *)

(** Two strictly increasing lists with the same elements are the same
    list. *)
Lemma increasing_ext (s1 s2 : list Z) :
  StronglySorted Z.lt s1 -> StronglySorted Z.lt s2 ->
  (forall x, In x s1 <-> In x s2) -> s1 = s2.
Proof.
  intros H1; revert s2; induction H1 as [| a s1 Hs1 IH Ha];
    intros s2 H2 Hsame.
  - destruct s2 as [| b s2]; [reflexivity |].
    destruct (proj2 (Hsame b) (or_introl eq_refl)).
  - destruct H2 as [| b s2 Hs2 Hb].
    + destruct (proj1 (Hsame a) (or_introl eq_refl)).
    + rewrite Forall_forall in Ha, Hb.
      assert (Eab : a = b).
      { destruct (proj1 (Hsame a) (or_introl eq_refl)) as [E | Hin];
          [now symmetry |].
        destruct (proj2 (Hsame b) (or_introl eq_refl)) as [E | Hin'];
          [exact E |].
        specialize (Ha _ Hin'); specialize (Hb _ Hin); lia. }
      subst b; f_equal; apply IH; [exact Hs2 |].
      intros x; split; intros Hx.
      * destruct (proj1 (Hsame x) (or_intror Hx)) as [E | Hin];
          [| exact Hin].
        subst x; specialize (Ha _ Hx); lia.
      * destruct (proj2 (Hsame x) (or_intror Hx)) as [E | Hin];
          [| exact Hin].
        subst x; specialize (Hb _ Hx); lia.
Qed.

Lemma py_set_ext (l1 l2 : list Z) :
  (forall x, In x l1 <-> In x l2) -> py_set l1 = py_set l2.
Proof.
  intros Hsame; apply increasing_ext; try apply py_set_increasing.
  intros x; rewrite !In_py_set; apply Hsame.
Qed.

(** X5: a negative [limit] is a slice bound counted from the end: of
    [count] indices the selector then returns [count + limit], none when
    that is negative. *)
Theorem randoms_negative_limit_size {rng : Type} `{RandomSource rng}
    (count limit : Z) (g : rng) :
  fair_shuffle rng -> 0 <= count -> limit < 0 ->
  len (fst (randoms count (Some limit) g)) = Z.max (count + limit) 0.
Proof.
  intros Hfair Hcount Hlimit; unfold randoms.
  destruct (shuffle g (py_range 0 count)) as [shuffled g'] eqn:E.
  pose proof (shuffled_range count g g' shuffled Hfair E) as Hperm.
  cbn [fst]; unfold len.
  rewrite py_set_length
    by (apply py_slice_NoDup, (Permutation_NoDup Hperm), py_range_NoDup).
  pose proof (Permutation_length Hperm) as Hlen.
  rewrite py_range_length in Hlen.
  unfold py_slice, slice_bound, len; rewrite <- Hlen.
  rewrite length_firstn, length_skipn, <- Hlen.
  destruct (limit <? 0) eqn:El; [| lia].
  cbn [Z.ltb Z.compare]; lia.
Qed.

Lemma randoms_negative_limit_size_witness :
  len (fst (randoms 5 (Some (-2)) 0%nat)) = Z.max (5 + -2) 0.
Proof.
  apply (randoms_negative_limit_size 5 (-2) 0%nat rotate_shuffle_fair); lia.
Defined.

(** X6: a [limit] that is at least [count] selects nothing away: the
    selector returns the same set as with [limit] unset, every index of
    [0, count), whatever the shuffle. *)
Theorem randoms_limit_covers {rng : Type} `{RandomSource rng}
    (count limit : Z) (g : rng) :
  fair_shuffle rng -> 0 <= count <= limit ->
  fst (randoms count (Some limit) g) = fst (randoms count None g)
  /\ forall i, In i (fst (randoms count (Some limit) g)) <-> 0 <= i < count.
Proof.
  intros Hfair Hcount; unfold randoms.
  destruct (shuffle g (py_range 0 count)) as [shuffled g'] eqn:E.
  pose proof (shuffled_range count g g' shuffled Hfair E) as Hperm.
  pose proof (Permutation_length Hperm) as Hlen.
  rewrite py_range_length in Hlen.
  cbn [fst].
  rewrite py_slice_prefix, firstn_all2 by lia.
  assert (Hsame : forall x, In x shuffled <-> In x (py_range 0 count)).
  { intros x; split; intros Hx.
    - eapply Permutation_in; [apply Permutation_sym; exact Hperm | exact Hx].
    - eapply Permutation_in; [exact Hperm | exact Hx]. }
  split; [now apply py_set_ext |].
  intros i; rewrite In_py_set, Hsame; apply In_py_range.
Qed.

Lemma randoms_limit_covers_witness :
  fst (randoms 4 (Some 9) 3%nat) = fst (randoms 4 None 3%nat)
  /\ forall i, In i (fst (randoms 4 (Some 9) 3%nat)) <-> 0 <= i < 4.
Proof.
  apply (randoms_limit_covers 4 9 3%nat rotate_shuffle_fair); lia.
Defined.

(** X7: of no items the selector returns the empty set, whatever the
    [limit], negative ones included. *)
Theorem randoms_of_nothing {rng : Type} `{RandomSource rng}
    (count : Z) (limit : option Z) (g : rng) :
  fair_shuffle rng -> count <= 0 ->
  fst (randoms count limit g) = [].
Proof.
  intros Hfair Hcount; unfold randoms.
  rewrite (py_range_empty 0 count Hcount).
  destruct limit as [limit |]; [| reflexivity].
  destruct (shuffle g []) as [shuffled g'] eqn:E.
  specialize (Hfair g []); rewrite E in Hfair; cbn [fst] in *.
  apply Permutation_nil in Hfair; subst shuffled.
  unfold py_slice; now rewrite skipn_nil, firstn_nil.
Qed.

Lemma randoms_of_nothing_witness :
  fst (randoms 0 (Some (-3)) 1%nat) = [].
Proof.
  apply (randoms_of_nothing 0 (Some (-3)) 1%nat rotate_shuffle_fair); lia.
Defined.

(** ** The search on one side *)

Lemma detect_more_fuel (cfg : config) (rot : array) (h w border : Z)
    (start : option Z) (fuel extra : nat) :
  detect fuel cfg rot h w border start <> Diverge ->
  detect (extra + fuel) cfg rot h w border start
  = detect fuel cfg rot h w border start.
Proof.
  intros Hnd; induction extra as [| extra IH]; [reflexivity |].
  cbn [Nat.add]; rewrite detect_fuel_mono; [exact IH |].
  now rewrite IH.
Qed.

(** The only exception the search raises is the one for [start], and only
    when [start] comes in unbound and its range is empty. *)
Lemma detect_raises (fuel : nat) (cfg : config) (rot : array) (h w : Z) :
  forall (border : Z) (start : option Z) (e : exn),
    detect fuel cfg rot h w border start = Raise e ->
    e = UnboundLocalError /\ start = None /\ reach cfg h < border + 1.
Proof.
  induction fuel as [| fuel IH]; intros border start e; [discriminate |].
  rewrite detect_S.
  destruct (find_start_Ok rot w border
              (py_range (border + 1) (reach cfg h + 1)) start)
    as [st1 [E1 Hst1]].
  rewrite E1; cbn [bind].
  destruct st1 as [s |].
  - cbn [read_local bind].
    destruct (find_subborder_Ok rot w border (threshold cfg)
                (rev (py_range s (reach cfg h + 1))) 0 (threshold cfg))
      as [sb [d [E2 _]]].
    rewrite E2; cbn [bind].
    destruct ((sb =? 0) || (border =? sb)); [discriminate |].
    destruct (fast cfg); [discriminate |].
    intros E; apply IH in E; destruct E as [_ [E _]]; discriminate.
  - cbn [read_local bind]; intros E; inversion E; subst e.
    destruct Hst1 as [[Hnil Hst] | [s [Hs _]]]; [| discriminate].
    repeat split; [now symmetry |].
    destruct (Z_lt_le_dec (reach cfg h) (border + 1)) as [Hlt | Hle];
      [exact Hlt | exfalso].
    assert (Hin : In (border + 1) (py_range (border + 1) (reach cfg h + 1)))
      by (apply In_py_range; lia).
    rewrite Hnil in Hin; destruct Hin.
Qed.

(** X8: the search on one side always ends.  With a budget above
    [2 * max(round(indent * h), 1)] iterations it either raises
    [UnboundLocalError], which happens only when [start] comes in unbound
    and [round(indent * h) < 1], or returns a border between 0 and
    [round(indent * h)]; and every larger budget gives the same outcome. *)
Theorem detect_settles (cfg : config) (rot : array) (h w : Z)
    (start : option Z) (fuel : nat) :
  start_ok start ->
  2 * Z.max (reach cfg h) 1 < Z.of_nat fuel ->
  ((start = None /\ reach cfg h < 1
    /\ detect fuel cfg rot h w 0 start = Raise UnboundLocalError)
   \/ (exists border start',
         detect fuel cfg rot h w 0 start = Ok (border, start')
         /\ 0 <= border <= Z.max (reach cfg h) 0
         /\ start_ok start'))
  /\ (forall fuel' : nat,
        (fuel <= fuel')%nat ->
        detect fuel' cfg rot h w 0 start = detect fuel cfg rot h w 0 start).
Proof.
  intros Hs Hfuel.
  pose proof (detect_terminates cfg rot h w fuel start Hs Hfuel) as Hnd.
  split.
  - destruct (detect fuel cfg rot h w 0 start) as [[b st'] | e |] eqn:E.
    + right; exists b, st'; split; [reflexivity |].
      apply (detect_range fuel cfg rot h w 0 start); [lia | exact Hs | exact E].
    + left; apply detect_raises in E; destruct E as [-> [-> Hr]].
      repeat split; lia.
    + now contradiction Hnd.
  - intros fuel' Hle.
    replace fuel' with ((fuel' - fuel) + fuel)%nat by lia.
    now apply detect_more_fuel.
Qed.

Lemma detect_settles_witness :
  ((@None Z = None /\ reach default_config 2 < 1
    /\ detect 3 default_config tiny_frame 2 2 0 None
       = Raise UnboundLocalError)
   \/ (exists border start',
         detect 3 default_config tiny_frame 2 2 0 None = Ok (border, start')
         /\ 0 <= border <= Z.max (reach default_config 2) 0
         /\ start_ok start'))
  /\ (forall fuel' : nat,
        (3 <= fuel')%nat ->
        detect fuel' default_config tiny_frame 2 2 0 None
        = detect 3 default_config tiny_frame 2 2 0 None).
Proof.
  apply (detect_settles default_config tiny_frame 2 2 None 3).
  - exact I.
  - vm_compute; reflexivity.
Defined.

(** X9: an iteration that starts with the border below
    [round(indent * h)] binds [start] above the border and never lowers the
    border: it stops with the border unchanged, or goes on (returns, in
    fast mode) with a border that is at least [start]. *)
Theorem iteration_below_reach (fuel : nat) (cfg : config) (rot : array)
    (h w border : Z) (start : option Z) :
  border < reach cfg h ->
  exists s subborder,
    border < s <= reach cfg h
    /\ (subborder = 0 \/ s <= subborder <= reach cfg h)
    /\ detect (S fuel) cfg rot h w border start
       = if subborder =? 0 then Ok (border, Some s)
         else if fast cfg then Ok (subborder, Some s)
         else detect fuel cfg rot h w subborder (Some s).
Proof.
  intros Hb; rewrite detect_S.
  destruct (find_start_Ok rot w border
              (py_range (border + 1) (reach cfg h + 1)) start)
    as [st1 [E1 Hst1]].
  rewrite E1; cbn [bind].
  destruct Hst1 as [[Hnil _] | [s [-> Hin]]].
  - exfalso.
    assert (Hin : In (border + 1) (py_range (border + 1) (reach cfg h + 1)))
      by (apply In_py_range; lia).
    rewrite Hnil in Hin; destruct Hin.
  - apply In_py_range in Hin; cbn [read_local bind].
    destruct (find_subborder_Ok rot w border (threshold cfg)
                (rev (py_range s (reach cfg h + 1))) 0 (threshold cfg))
      as [sb [d [E2 Hsb]]].
    rewrite E2; cbn [bind].
    exists s, sb; split; [lia |].
    assert (Hsb' : sb = 0 \/ s <= sb <= reach cfg h).
    { destruct Hsb as [-> | Hc]; [now left | right].
      apply in_rev, In_py_range in Hc; lia. }
    split; [exact Hsb' |].
    destruct (sb =? 0) eqn:E0; [reflexivity |].
    apply Z.eqb_neq in E0.
    assert (Eb : (border =? sb) = false) by (apply Z.eqb_neq; lia).
    now rewrite Eb.
Qed.

Lemma iteration_below_reach_witness :
  exists s subborder,
    0 < s <= reach slow_config 16
    /\ (subborder = 0 \/ s <= subborder <= reach slow_config 16)
    /\ detect 1 slow_config marked_frame 16 2 0 None
       = if subborder =? 0 then Ok (0, Some s)
         else if fast slow_config then Ok (subborder, Some s)
         else detect 0 slow_config marked_frame 16 2 subborder (Some s).
Proof.
  apply (iteration_below_reach 0 slow_config marked_frame 16 2 0 None).
  reflexivity.
Defined.

(** X10: on a side with [round(indent * h) < 1] both ranges are empty.
    When nothing has bound [start], reading it raises
    [UnboundLocalError]; when an earlier side has left a value in it, the
    border is 0 and [start] keeps that value. *)
Theorem out_of_reach_side (fuel : nat) (cfg : config) (rot : array)
    (h w : Z) :
  reach cfg h < 1 ->
  detect (S fuel) cfg rot h w 0 None = Raise UnboundLocalError
  /\ forall s, 1 <= s ->
       detect (S fuel) cfg rot h w 0 (Some s) = Ok (0, Some s).
Proof.
  intros HR; split; [now apply detect_unbound |].
  intros s Hs; now apply detect_out_of_reach.
Qed.

Lemma out_of_reach_side_witness :
  detect 1 default_config tiny_frame 2 2 0 None = Raise UnboundLocalError
  /\ forall s, 1 <= s ->
       detect 1 default_config tiny_frame 2 2 0 (Some s) = Ok (0, Some s).
Proof.
  apply (out_of_reach_side 0 default_config tiny_frame 2 2).
  reflexivity.
Defined.

Lemma py_range_snoc (a b : Z) :
  a <= b -> py_range a (b + 1) = py_range a b ++ [b].
Proof.
  intros Hab; unfold py_range.
  replace (Z.to_nat (b + 1 - a)) with (S (Z.to_nat (b - a))) by lia.
  rewrite seq_S, map_app; cbn [map Nat.add]; do 2 f_equal; lia.
Qed.

Lemma last_start (starts : list Z) (s : Z) (start : option Z) :
  fold_left (fun _ s => Some s) (starts ++ [s]) start = Some s.
Proof. now rewrite fold_left_app. Qed.

(** X11: on a view whose pixels are all the same, within reach
    ([round(indent * h) >= 1]), no start is found and no center is taken:
    the border is 0 after one iteration, and [start] is left at
    [round(indent * h)], the last value tested. *)
Theorem flat_view_border (v : Z) (fuel : nat) (cfg : config) (rot : array)
    (h w : Z) (start : option Z) :
  all_pixels (eq v) rot ->
  1 <= reach cfg h ->
  detect (S fuel) cfg rot h w 0 start = Ok (0, Some (reach cfg h)).
Proof.
  intros Hrot HR; rewrite detect_S.
  rewrite (find_start_flat v) by exact Hrot; cbn [bind].
  rewrite py_range_snoc, last_start by lia.
  cbn [read_local bind].
  rewrite (find_subborder_flat v) by exact Hrot; reflexivity.
Qed.

Lemma flat_view_border_witness :
  detect 1 default_config (blank 7 4 4) 4 4 0 None
  = Ok (0, Some (reach default_config 4)).
Proof.
  apply (flat_view_border 7 0 default_config (blank 7 4 4) 4 4 None).
  - apply all_pixels_blank.
  - vm_compute; discriminate.
Defined.

(** ** The results of a scan *)

Lemma scan_frame_shape {rng : Type} `{RandomSource rng}
    (fuel : nat) (cfg : config) (arr : array) (g g' : rng)
    (borders : list Z) :
  scan_frame fuel cfg arr g = (Ok borders, g') ->
  length borders = 4%nat /\ Forall (fun b => 0 <= b) borders.
Proof.
  unfold scan_frame; intros E.
  apply scan_sides_range in E; [| exact I].
  split.
  - now rewrite <- (Forall2_length E).
  - clear -E; induction E as [| side b sides bs Hb _ IH]; constructor;
      [lia | exact IH].
Qed.

(** X12: a scan that returns gives one border set per frame, in the order
    of the frames.  The border set at position [i] is what the scan of
    frame [i] returns from the state of the randomness source that the scan
    of the frames before it left; it has four offsets, none negative. *)
Theorem scan_borders_in_order {rng : Type} `{RandomSource rng}
    (fuel : nat) (cfg : config) (frames : list array) (g g' : rng)
    (all : list (list Z)) :
  scan fuel cfg frames g = (Ok all, g') ->
  length all = length frames
  /\ forall (i : nat) (arr : array),
       nth_error frames i = Some arr ->
       exists borders g0 g1,
         nth_error all i = Some borders
         /\ scan fuel cfg (firstn i frames) g = (Ok (firstn i all), g0)
         /\ scan_frame fuel cfg arr g0 = (Ok borders, g1)
         /\ length borders = 4%nat
         /\ Forall (fun b => 0 <= b) borders.
Proof.
  revert g g' all; induction frames as [| arr frames IH]; intros g g' all.
  - cbn [scan]; intros E; inversion E; split; [reflexivity |].
    intros [| i] a; discriminate.
  - cbn [scan].
    destruct (scan_frame fuel cfg arr g) as [[borders | e |] g1] eqn:Eframe;
      try discriminate.
    destruct (scan fuel cfg frames g1) as [rest g2] eqn:Erest.
    destruct rest as [bs | e |]; cbn [bind]; try discriminate.
    intros E; inversion E; subst.
    destruct (IH _ _ _ Erest) as [Hlen Hnth].
    split; [cbn [length]; now rewrite Hlen |].
    intros [| i] a.
    + cbn [nth_error firstn]; intros Ea; inversion Ea; subst.
      exists borders, g, g1; repeat split; try assumption;
        now apply (scan_frame_shape fuel cfg a g g1).
    + cbn [nth_error firstn]; intros Ea.
      destruct (Hnth i a Ea) as (b & g0 & g3 & Hb & Hbefore & Ha & Hshape).
      exists b, g0, g3; repeat split; try tauto.
      cbn [scan]; rewrite Eframe, Hbefore; reflexivity.
Qed.

Lemma scan_borders_in_order_witness :
  length [[0; 0; 0; 0]; [2; 0; 0; 0]]
  = length [striped_frame; striped_frame]
  /\ forall (i : nat) (arr : array),
       nth_error [striped_frame; striped_frame] i = Some arr ->
       exists borders g0 g1,
         nth_error [[0; 0; 0; 0]; [2; 0; 0; 0]] i = Some borders
         /\ scan 1 capped_config (firstn i [striped_frame; striped_frame])
              0%nat
            = (Ok (firstn i [[0; 0; 0; 0]; [2; 0; 0; 0]]), g0)
         /\ scan_frame 1 capped_config arr g0 = (Ok borders, g1)
         /\ length borders = 4%nat
         /\ Forall (fun b => 0 <= b) borders.
Proof.
  apply (scan_borders_in_order 1 capped_config
           [striped_frame; striped_frame] 0%nat 8%nat).
  cbn [scan].
  now rewrite striped_first_scan, striped_second_scan.
Defined.

(** X13: [scan] catches nothing.  When the scan of a frame raises, after
    the frames before it were scanned, the whole call raises that exception
    there: the borders found so far are dropped, and the frames after it
    are not scanned. *)
Theorem scan_stops_at_first_failure {rng : Type} `{RandomSource rng}
    (fuel : nat) (cfg : config) (before after : list array) (arr : array)
    (g g0 g1 : rng) (all : list (list Z)) (e : exn) :
  scan fuel cfg before g = (Ok all, g0) ->
  scan_frame fuel cfg arr g0 = (Raise e, g1) ->
  scan fuel cfg (before ++ arr :: after) g = (Raise e, g1).
Proof.
  intros Hbefore Harr.
  rewrite scan_app, Hbefore; cbn [scan]; rewrite Harr; reflexivity.
Qed.

Lemma scan_stops_at_first_failure_witness :
  scan 1 default_config ([blank 7 4 4] ++ tiny_frame :: [blank 9 8 4]) 0%nat
  = (Raise UnboundLocalError, 0%nat).
Proof.
  apply (scan_stops_at_first_failure 1 default_config [blank 7 4 4]
           [blank 9 8 4] tiny_frame 0%nat 0%nat 0%nat [[0; 0; 0; 0]]).
  - cbn [scan].
    rewrite scan_frame_blank; [reflexivity | lia | lia | reflexivity |].
    vm_compute; discriminate.
  - apply (scan_frame_unbound 0 default_config tiny_frame tiny_frame);
      reflexivity.
Defined.

(** ** What the two inner loops find *)

(** X21: the loop over [start] stops at the first value of its range whose
    rows [border, start) have positive entropy, every earlier value having
    rows of entropy 0; when no value has, it runs to the end of the range
    and leaves [start] at the last value (as it was, for an empty
    range). *)
Theorem start_is_first_content (rot : array) (w border : Z)
    (starts : list Z) (start start' : option Z) :
  find_start rot w border starts start = Ok start' ->
  (exists before s after,
      starts = before ++ s :: after
      /\ start' = Some s
      /\ (0 < shannon_entropy (region rot w border s))%R
      /\ forall x, In x before ->
           shannon_entropy (region rot w border x) = 0%R)
  \/ ((forall x, In x starts ->
         shannon_entropy (region rot w border x) = 0%R)
      /\ start' = fold_left (fun _ s => Some s) starts start).
Proof.
  revert start; induction starts as [| s starts IH]; intros start.
  - cbn; intros E; inversion E; right; split; [intros x [] | reflexivity].
  - cbn [find_start]; rewrite entropy_value; cbn [bind].
    pose proof (shannon_nonneg (region rot w border s)) as Hnn.
    unfold Rgtb; destruct (Rgt_dec _ 0) as [Hpos | Hzero].
    + intros E; inversion E; subst; left.
      exists [], s, starts; repeat split; [lra | intros x []].
    + assert (E0 : shannon_entropy (region rot w border s) = 0%R) by lra.
      intros E; destruct (IH _ E)
        as [[before [s' [after [-> [-> [Hpos Hbefore]]]]]] | [Hall ->]].
      * left; exists (s :: before), s', after; repeat split; [exact Hpos |].
        intros x [<- | Hx]; [exact E0 | now apply Hbefore].
      * right; split; [| reflexivity].
        intros x [<- | Hx]; [exact E0 | now apply Hall].
Qed.

Lemma start_is_first_content_witness :
  (exists before s after,
      [1; 2; 3; 4] = before ++ s :: after
      /\ Some 1 = Some s
      /\ (0 < shannon_entropy (region marked_frame 2 0 s))%R
      /\ forall x, In x before ->
           shannon_entropy (region marked_frame 2 0 x) = 0%R)
  \/ ((forall x, In x [1; 2; 3; 4] ->
         shannon_entropy (region marked_frame 2 0 x) = 0%R)
      /\ Some 1 = fold_left (fun _ s => Some s) [1; 2; 3; 4] None).
Proof.
  apply (start_is_first_content marked_frame 2 0 [1; 2; 3; 4] None (Some 1)).
  apply find_start_break; marked_region shannon_positive.
Defined.

(** ** The stacked columns *)

Lemma py_slice_one {A : Type} (l : list A) (r : Z) :
  0 <= r < len l -> length (py_slice l r (r + 1)) = 1%nat.
Proof.
  intros Hr; unfold py_slice, slice_bound.
  destruct (r <? 0) eqn:E1; [lia |].
  destruct (r + 1 <? 0) eqn:E2; [lia |].
  rewrite length_firstn, length_skipn; unfold len in *; lia.
Qed.

(** Stacking arrays whose first row has one pixel onto an array with a
    first row: the first row grows by one pixel for each of them. *)
Lemma fold_hcat_width (rest : list array) :
  forall (x : list Z) (a : array),
    (forall b, In b rest ->
       exists y b', b = y :: b' /\ length y = 1%nat) ->
    exists x' a',
      fold_left hcat rest (x :: a) = x' :: a'
      /\ length x' = (length x + length rest)%nat.
Proof.
  induction rest as [| b rest IH]; intros x a Hrest.
  - exists x, a; split; [reflexivity | simpl; lia].
  - destruct (Hrest b (or_introl eq_refl)) as (y & b' & -> & Hy).
    cbn [fold_left hcat].
    destruct (IH (x ++ y) (hcat a b')) as (x' & a' & E & Hlen);
      [intros c Hc; apply Hrest; now right |].
    exists x', a'; split; [exact E |].
    rewrite Hlen, length_app, Hy; simpl; lia.
Qed.

Lemma slice2_first_row (row : list Z) (rows : array) (r : Z) :
  slice2 (row :: rows) 0 (len (row :: rows)) r (r + 1)
  = py_slice row r (r + 1) :: map (fun x => py_slice x r (r + 1)) rows.
Proof. unfold slice2; now rewrite py_slice_full. Qed.

(** X22: the loop that collects the columns [rot[0:h, r:r+1]] and
    [np.hstack].  For every selection of column indices that is not empty
    the stacked view is built: it has the height of the rotated frame, and
    every property that all the pixels of the rotated frame have, its
    pixels have too; when the indices are columns of a frame that has a
    row, the view has one column for each of them.  For the empty
    selection, and only for it, [ValueError] is raised. *)
Theorem stacked_columns_keep_rows (rot : array) (cols : list Z) :
  (cols = []
   /\ hstack (map (fun r => slice2 rot 0 (fst (shape rot)) r (r + 1)) cols)
      = Raise ValueError)
  \/ (cols <> []
      /\ exists view,
           hstack
             (map (fun r => slice2 rot 0 (fst (shape rot)) r (r + 1)) cols)
           = Ok view
           /\ fst (shape view) = fst (shape rot)
           /\ (forall P, all_pixels P rot -> all_pixels P view)
           /\ (1 <= fst (shape rot) ->
               (forall r, In r cols -> 0 <= r < snd (shape rot)) ->
               snd (shape view) = len cols)).
Proof.
  destruct cols as [| r cols]; [left; split; reflexivity | right].
  split; [discriminate |].
  cbn [map hstack]; eexists; split; [reflexivity |].
  rewrite !shape_height; split; [| split].
  - unfold len; f_equal.
    rewrite hstack_fold_length; [apply slice2_height |].
    intros b Hb; apply in_map_iff in Hb; destruct Hb as [r' [<- _]].
    now rewrite !slice2_height.
  - intros P HP; apply all_pixels_fold.
    + now apply all_pixels_slice2.
    + intros b Hb; apply in_map_iff in Hb; destruct Hb as [r' [<- _]].
      now apply all_pixels_slice2.
  - destruct rot as [| row rows]; [cbn; lia |].
    intros _ Hcols; cbn [shape snd] in Hcols.
    rewrite slice2_first_row.
    destruct (fold_hcat_width
                (map (fun r0 => slice2 (row :: rows) 0 (len (row :: rows))
                                  r0 (r0 + 1)) cols)
                (py_slice row r (r + 1))
                (map (fun x => py_slice x r (r + 1)) rows))
      as (x' & a' & -> & Hlen).
    + intros b Hb; apply in_map_iff in Hb; destruct Hb as [r' [<- Hr']].
      rewrite slice2_first_row; eexists; eexists; split; [reflexivity |].
      apply py_slice_one, Hcols; now right.
    + cbn [shape snd]; unfold len; rewrite Hlen, length_map.
      rewrite py_slice_one by (apply Hcols; now left).
      cbn [length]; lia.
Qed.
